(** * el-hbs: the Handlebars helper registry of [src/index.js]

    A shallow embedding of the helpers built by [helpers()] and the
    properties stated about them.

    Scope of the value model.  Strings are sequences of characters of
    which the ASCII ones are interpreted: case conversion acts on the
    letters A-Z and a-z and leaves every other character alone.  Numbers
    are the mathematical integers together with [NaN]; fractions,
    infinities and the rounding of doubles above 2^53 are not represented.
    Objects are data records kept in a heap and addressed by reference;
    arrays are not among the values.  The global object is a value of its
    own, and functions handed in by the template engine are opaque: they
    are called, never inspected.  Own [valueOf]/[toString] overrides of
    data records are not consulted by the coercions. *)

From stdpp Require Import gmap strings list pretty.
From Stdlib Require Import ZArith Ascii String.

Open Scope string_scope.

(** ** Strings: the built-in methods the helpers call *)

Module Str.

Definition code (c : ascii) : nat := nat_of_ascii c.

Definition is_upper (c : ascii) : bool := (65 <=? code c)%nat && (code c <=? 90)%nat.
Definition is_lower (c : ascii) : bool := (97 <=? code c)%nat && (code c <=? 122)%nat.

Definition lower_char (c : ascii) : ascii :=
  if is_upper c then ascii_of_nat (code c + 32) else c.
Definition upper_char (c : ascii) : ascii :=
  if is_lower c then ascii_of_nat (code c - 32) else c.

Fixpoint map (f : ascii -> ascii) (s : string) : string :=
  match s with
  | EmptyString => EmptyString
  | String c s' => String (f c) (map f s')
  end.

Fixpoint filter (keep : ascii -> bool) (s : string) : string :=
  match s with
  | EmptyString => EmptyString
  | String c s' => if keep c then String c (filter keep s') else filter keep s'
  end.

Fixpoint forallb (p : ascii -> bool) (s : string) : bool :=
  match s with
  | EmptyString => true
  | String c s' => p c && forallb p s'
  end.

Fixpoint take (n : nat) (s : string) : string :=
  match n, s with
  | S n', String c s' => String c (take n' s')
  | _, _ => EmptyString
  end.

Fixpoint drop (n : nat) (s : string) : string :=
  match n, s with
  | S n', String _ s' => drop n' s'
  | _, _ => s
  end.

(** [String.prototype.toLowerCase] and [toUpperCase]. *)
Definition toLowerCase : string -> string := map lower_char.
Definition toUpperCase : string -> string := map upper_char.

(** [s.charAt(i)]: the one-character string at [i], or the empty string. *)
Definition charAt (i : nat) (s : string) : string := take 1 (drop i s).

(** [s.slice(i)] for a non-negative [i]. *)
Definition slice (i : nat) (s : string) : string := drop i s.

(** [s.substring(a, b)] on integer arguments: both ends are clamped to
    [0 .. length] and swapped when out of order. *)
Definition clamp (len : nat) (z : Z) : nat := Nat.min (Z.to_nat z) len.
Definition substring (a b : Z) (s : string) : string :=
  let a' := clamp (String.length s) a in
  let b' := clamp (String.length s) b in
  take (Nat.max a' b' - Nat.min a' b') (drop (Nat.min a' b') s).

(** [s.indexOf(p)]: position of the first occurrence of [p], or [-1]. *)
Fixpoint find (p s : string) (i : nat) : option nat :=
  if String.prefix p s then Some i
  else match s with
       | EmptyString => None
       | String _ s' => find p s' (S i)
       end.
Definition indexOf (p s : string) : Z :=
  match find p s 0 with
  | Some i => Z.of_nat i
  | None => (-1)%Z
  end.
Definition contains (p s : string) : bool :=
  negb (indexOf p s =? -1)%Z.

(** [s.replace(p, r)] with a string pattern: the first occurrence of [p]
    is replaced.  The replacements used by the helpers contain no [$],
    so no substitution pattern is expanded. *)
Fixpoint replace (p r s : string) : string :=
  if String.prefix p s then r ++ drop (String.length p) s
  else match s with
       | EmptyString => EmptyString
       | String c s' => String c (replace p r s')
       end.

(** [s.replace(/ /g, '-')]: every space becomes a hyphen. *)
Definition space : ascii := " "%char.
Definition hyphen : ascii := "-"%char.
Definition replace_spaces : string -> string :=
  map (fun c => if Ascii.eqb c space then hyphen else c).

(** [s.replace(/[\\'\-\[\]\/\{\}\(\)\*\+\?\.\\\^\$\|]/g, "")]: the
    characters of the class are deleted. *)
Definition special : string := "\'-[]/{}()*+?.^$|".
Fixpoint mem (c : ascii) (s : string) : bool :=
  match s with
  | EmptyString => false
  | String d s' => Ascii.eqb c d || mem c s'
  end.
Definition remove_special : string -> string :=
  filter (fun c => negb (mem c special)).

Fixpoint concat (l : list string) : string :=
  match l with
  | [] => EmptyString
  | s :: l' => s ++ concat l'
  end.

(** White space skipped by [parseInt] and by the string-to-number
    conversion: tab, line feed, vertical tab, form feed, carriage
    return, space. *)
Definition is_space (c : ascii) : bool :=
  let n := code c in ((9 <=? n)%nat && (n <=? 13)%nat) || (n =? 32)%nat.
Fixpoint skip_spaces (s : string) : string :=
  match s with
  | String c s' => if is_space c then skip_spaces s' else s
  | EmptyString => EmptyString
  end.

End Str.

(** ** Values, objects and the store *)

Inductive number :=
  | NaN
  | Int (z : Z).

Definition loc := positive.

Inductive value :=
  | VUndef
  | VNull
  | VBool (b : bool)
  | VNum (n : number)
  | VStr (s : string)
  | VFun (f : nat)        (* a function supplied by the template engine *)
  | VGlobal               (* the global object *)
  | VRef (l : loc).       (* an object of the heap *)

(** Heap objects are plain records or instances of [hbs.SafeString]
    (whose text is the property [string]). *)
Inductive class := Plain | SafeString.

Record object := Obj { cls : class; props : gmap string value }.

(** An argument handed to a template-supplied function: a value or a
    regular-expression literal. *)
Inductive extern_arg :=
  | AVal (v : value)
  | ARegExp (source flags : string).

Record call := Call { callee : nat; receiver : value; arguments : list extern_arg }.

Record state := State {
  heap : gmap loc object;          (* the records reachable from template data *)
  globals : gmap string value;     (* properties of the global object *)
  hbs_own : gmap string value;     (* properties assigned on the handlebars module *)
  registry : loc;                  (* where the [_helpers] object lives *)
  world : nat;                     (* clock and entropy of the host *)
  calls : list call                (* template-supplied functions invoked so far *)
}.

Inductive error :=
  | TypeError
  | Failure (code : nat).   (* raised by a collaborator or a template function *)

Inductive outcome (A : Type) :=
  | Return (a : A)
  | Throw (e : error).
Arguments Return {A} a.
Arguments Throw {A} e.

Definition outcome_map {A B} (f : A -> B) (o : outcome A) : outcome B :=
  match o with
  | Return a => Return (f a)
  | Throw e => Throw e
  end.

#[global] Instance number_eq_dec : EqDecision number.
Proof. solve_decision. Defined.
#[global] Instance value_eq_dec : EqDecision value.
Proof. solve_decision. Defined.
#[global] Instance class_eq_dec : EqDecision class.
Proof. solve_decision. Defined.

(** A computation reads and updates the state and returns or throws. *)
Definition M (A : Type) : Type := state -> outcome A * state.

#[global] Instance M_ret : MRet M := fun A a st => (Return a, st).
#[global] Instance M_bind : MBind M := fun A B k m st =>
  match m st with
  | (Return a, st') => k a st'
  | (Throw e, st') => (Throw e, st')
  end.

Definition throw {A} (e : error) : M A := fun st => (Throw e, st).
Definition get_state : M state := fun st => (Return st, st).
Definition put_state (st : state) : M unit := fun _ => (Return tt, st).

Definition set_heap (h : gmap loc object) (st : state) : state :=
  State h (globals st) (hbs_own st) (registry st) (world st) (calls st).
Definition set_globals (g : gmap string value) (st : state) : state :=
  State (heap st) g (hbs_own st) (registry st) (world st) (calls st).
Definition set_hbs_own (o : gmap string value) (st : state) : state :=
  State (heap st) (globals st) o (registry st) (world st) (calls st).
Definition set_world (w : nat) (st : state) : state :=
  State (heap st) (globals st) (hbs_own st) (registry st) w (calls st).
Definition log_call (c : call) (st : state) : state :=
  State (heap st) (globals st) (hbs_own st) (registry st) (world st) (calls st ++ [c]).

(** ** Coercions and operators *)

Module Js.

(** Decimal digits and [parseInt]'s radix-16 digits. *)
Definition digit (c : ascii) : option Z :=
  let n := Str.code c in
  if (48 <=? n)%nat && (n <=? 57)%nat then Some (Z.of_nat (n - 48)) else None.
Definition hex_digit (c : ascii) : option Z :=
  let n := Str.code c in
  if (48 <=? n)%nat && (n <=? 57)%nat then Some (Z.of_nat (n - 48))
  else if (97 <=? n)%nat && (n <=? 102)%nat then Some (Z.of_nat (n - 87))
  else if (65 <=? n)%nat && (n <=? 70)%nat then Some (Z.of_nat (n - 55))
  else None.

(** The longest prefix of digits of [s], read in base [radix] after
    [acc]; [None] when [s] does not start with a digit. *)
Fixpoint read_digits (dig : ascii -> option Z) (radix : Z) (s : string)
    (acc : option Z) : option Z * string :=
  match s with
  | String c s' =>
      match dig c with
      | Some d => read_digits dig radix s' (Some (default 0 acc * radix + d)%Z)
      | None => (acc, s)
      end
  | EmptyString => (acc, s)
  end.

Definition read_sign (s : string) : Z * string :=
  match s with
  | String "-" s' => ((-1)%Z, s')
  | String "+" s' => (1%Z, s')
  | _ => (1%Z, s)
  end.

(** [parseInt(s)] on a string, no radix given. *)
Definition parseInt_string (s : string) : number :=
  let (sign, s1) := read_sign (Str.skip_spaces s) in
  let '(dig, radix, s2) :=
    match s1 with
    | String "0" (String "x" s') | String "0" (String "X" s') => (hex_digit, 16%Z, s')
    | _ => (digit, 10%Z, s1)
    end in
  match fst (read_digits dig radix s2 None) with
  | Some n => Int (sign * n)
  | None => NaN
  end.

Fixpoint rtrim (s : string) : string :=
  match s with
  | EmptyString => EmptyString
  | String c s' =>
      let t := rtrim s' in
      if Str.is_space c && String.eqb t "" then "" else String c t
  end.

(** The number a string converts to: white space is trimmed, the empty
    string is [0], a signed decimal integer is its value.  Literals with
    a fraction, an exponent or a radix prefix denote numbers outside the
    model and are read as [NaN], like every other text. *)
Definition StringToNumber (s : string) : number :=
  let t := rtrim (Str.skip_spaces s) in
  if String.eqb t "" then Int 0
  else
    let (sign, t1) := read_sign t in
    match read_digits digit 10 t1 None with
    | (Some n, EmptyString) => Int (sign * n)
    | _ => NaN
    end.

Definition NumberToString (n : number) : string :=
  match n with
  | NaN => "NaN"
  | Int z => pretty z
  end.

Definition num_eqb (a b : number) : bool :=
  match a, b with
  | Int x, Int y => (x =? y)%Z
  | _, _ => false
  end.

Definition num_leb (a b : number) : bool :=
  match a, b with
  | Int x, Int y => (x <=? y)%Z
  | _, _ => false
  end.

Definition num_add (a b : number) : number :=
  match a, b with
  | Int x, Int y => Int (x + y)
  | _, _ => NaN
  end.

End Js.

(** ** Collaborators

    The libraries the module requires and the host functions it calls are
    black boxes with a call contract.  They read the heap and never write
    it. *)

Class Collaborators := {
  (** text of a template-supplied function, and its own properties *)
  fun_source : nat -> string;
  fun_prop : nat -> string -> option value;
  (** result of calling a template-supplied function *)
  call_fun : nat -> value -> list extern_arg -> state -> outcome value;
  (** [moment(v).fromNow()] and [moment(v).format(f)] at a given instant *)
  moment_fromNow : nat -> gmap loc object -> value -> outcome string;
  moment_format : nat -> gmap loc object -> value -> value -> outcome string;
  (** [cloudinary.url(id, options)] and [cloudinary.image(id, options)] *)
  cloudinary_url : gmap loc object -> value -> gmap string value -> outcome string;
  cloudinary_image : gmap loc object -> value -> gmap string value -> outcome string;
  (** [randomNum({integer: true, min, max})]: the draw and the next entropy *)
  randomNum : Z -> Z -> nat -> Z * nat;
  (** [JSON.stringify(v, null, 2)]: a text, or nothing for [undefined] *)
  JSON_stringify : gmap loc object -> value -> outcome (option string);
  (** [hbs.escapeExpression(v)] *)
  escapeExpression : gmap loc object -> value -> string;
  (** [pluralize.plural(v)] *)
  pluralize_plural : gmap loc object -> value -> outcome string
}.

(** The contract of the random-number source: a draw lies between the
    bounds it was asked for. *)
Definition randomNum_in_range {C : Collaborators} : Prop :=
  forall (min max : Z) (w : nat),
    (min <= max)%Z -> (min <= fst (randomNum min max w) <= max)%Z.

Section Semantics.

Context {C : Collaborators}.

Implicit Types (h : gmap loc object) (v a b : value) (k : string).

Definition typeof v : string :=
  match v with
  | VUndef => "undefined"
  | VBool _ => "boolean"
  | VNum _ => "number"
  | VStr _ => "string"
  | VFun _ => "function"
  | VNull | VGlobal | VRef _ => "object"
  end.

Definition ToBoolean v : bool :=
  match v with
  | VUndef | VNull | VBool false | VNum NaN | VNum (Int 0) | VStr "" => false
  | _ => true
  end.

(** Conversion of a primitive to a string ([VFun], [VGlobal] and [VRef]
    go through [ToPrimitive] first). *)
Definition prim_to_string v : string :=
  match v with
  | VUndef => "undefined"
  | VNull => "null"
  | VBool true => "true"
  | VBool false => "false"
  | VNum n => Js.NumberToString n
  | VStr s => s
  | VFun f => fun_source f
  | VGlobal => "[object global]"
  | VRef _ => "[object Object]"
  end.

(** A plain record converts to ["[object Object]"]; a SafeString to
    ['' + this.string]. *)
Definition ToPrimitive h v : value :=
  match v with
  | VFun _ | VGlobal => VStr (prim_to_string v)
  | VRef l =>
      match h !! l with
      | Some (Obj SafeString ps) => VStr (prim_to_string (default VUndef (ps !! "string")))
      | _ => VStr "[object Object]"
      end
  | _ => v
  end.

Definition ToString h v : string := prim_to_string (ToPrimitive h v).

Definition prim_to_number v : number :=
  match v with
  | VNull | VBool false => Int 0
  | VBool true => Int 1
  | VNum n => n
  | VStr s => Js.StringToNumber s
  | _ => NaN
  end.

Definition ToNumber h v : number := prim_to_number (ToPrimitive h v).

(** [a === b] *)
Definition strict_eq a b : bool :=
  match a, b with
  | VNum x, VNum y => Js.num_eqb x y
  | _, _ => bool_decide (a = b)
  end.

(** [a == b]: same-typed operands compare strictly, [null] and
    [undefined] equal each other only, a boolean is first made a number,
    an object compared with a primitive is first made a primitive, and a
    number compared with a string compares with the string's number. *)
Definition is_object v : bool :=
  match v with VFun _ | VGlobal | VRef _ => true | _ => false end.
Definition is_nullish v : bool :=
  match v with VUndef | VNull => true | _ => false end.

Definition loose_eq_prim a b : bool :=
  match a, b with
  | VStr s, VStr t => String.eqb s t
  | VStr s, _ => Js.num_eqb (Js.StringToNumber s) (prim_to_number b)
  | _, VStr t => Js.num_eqb (prim_to_number a) (Js.StringToNumber t)
  | _, _ => Js.num_eqb (prim_to_number a) (prim_to_number b)
  end.

Definition loose_eq h a b : bool :=
  if is_object a && is_object b then bool_decide (a = b)
  else if is_nullish a || is_nullish b then is_nullish a && is_nullish b
  else loose_eq_prim (ToPrimitive h a) (ToPrimitive h b).

(** [a <= b] *)
Definition js_le h a b : bool :=
  match ToPrimitive h a, ToPrimitive h b with
  | VStr s, VStr t => String.leb s t
  | pa, pb => Js.num_leb (prim_to_number pa) (prim_to_number pb)
  end.

(** [a + b] *)
Definition js_add h a b : value :=
  match ToPrimitive h a, ToPrimitive h b with
  | VStr s, pb => VStr (s ++ prim_to_string pb)
  | pa, VStr t => VStr (prim_to_string pa ++ t)
  | pa, pb => VNum (Js.num_add (prim_to_number pa) (prim_to_number pb))
  end.

(** [[x1, ..., xn].join('')]: [undefined] and [null] contribute nothing. *)
Definition join_item h v : string :=
  if is_nullish v then "" else ToString h v.
Definition join h (l : list value) : string := Str.concat (join_item h <$> l).

(** [parseInt(v)] *)
Definition parseInt h v : number := Js.parseInt_string (ToString h v).

(** The index named by a property key of a string of length [len]: the
    key is the canonical decimal text of a number below [len]. *)
Definition string_index (len : nat) k : option nat :=
  match Js.read_digits Js.digit 10 k None with
  | (Some n, EmptyString) =>
      if String.eqb (pretty n) k && (n <? Z.of_nat len)%Z then Some (Z.to_nat n) else None
  | _ => None
  end.

(** Own property [k] of [v]; [None] when [v] has no such own property. *)
Definition own_prop (st : state) v k : option value :=
  match v with
  | VStr s =>
      if String.eqb k "length" then Some (VNum (Int (Z.of_nat (String.length s))))
      else (fun i => VStr (Str.charAt i s)) <$> string_index (String.length s) k
  | VFun f => fun_prop f k
  | VGlobal => globals st !! k
  | VRef l => heap st !! l ≫= fun o => props o !! k
  | _ => None
  end.

(** [v.k] and [v[k]] for a data property. *)
Definition get_prop v k : M value := fun st =>
  if is_nullish v then (Throw TypeError, st)
  else (Return (default VUndef (own_prop st v k)), st).

(** [v[k] = x].  Assigning to a property of a primitive is ignored
    outside strict mode; functions are opaque. *)
Definition set_prop v k (x : value) : M unit := fun st =>
  match v with
  | VUndef | VNull => (Throw TypeError, st)
  | VRef l =>
      match heap st !! l with
      | Some o => (Return tt, set_heap (<[l := Obj (cls o) (<[k := x]> (props o))]> (heap st)) st)
      | None => (Return tt, st)
      end
  | VGlobal => (Return tt, set_globals (<[k := x]> (globals st)) st)
  | _ => (Return tt, st)
  end.

(** An assignment to an undeclared variable creates or updates a
    property of the global object. *)
Definition set_global k (x : value) : M unit := set_prop VGlobal k x.

(** Calling a template-supplied function. *)
Definition call_external (f : nat) (recv : value) (args : list extern_arg) : M value :=
  fun st => (call_fun f recv args st, log_call (Call f recv args) st).

(** [recv.name(args)]: an own property shadows the built-in method;
    [builtin] is what the prototype of [recv] provides. *)
Definition call_method (recv : value) (name : string) (args : list extern_arg)
    (builtin : M value) : M value := fun st =>
  if is_nullish recv then (Throw TypeError, st)
  else match own_prop st recv name with
       | Some (VFun f) => call_external f recv args st
       | Some _ => (Throw TypeError, st)
       | None => builtin st
       end.

(** The built-in of a method that exists on strings only. *)
Definition string_method (recv : value) (body : string -> value) : M value :=
  match recv with
  | VStr s => mret (body s)
  | _ => throw TypeError
  end.

Definition hasOwnProperty recv k : M value :=
  call_method recv "hasOwnProperty" [AVal (VStr k)]
    (fun st => (Return (VBool (bool_decide (is_Some (own_prop st recv k)))), st)).

Definition m_concat recv (args : list value) : M value :=
  call_method recv "concat" (AVal <$> args)
    (fun st => string_method recv
       (fun s => VStr (s ++ Str.concat (ToString (heap st) <$> args))) st).

Definition m_replace recv (pat rep : string) : M value :=
  call_method recv "replace" [AVal (VStr pat); AVal (VStr rep)]
    (string_method recv (fun s => VStr (Str.replace pat rep s))).

Definition m_replace_spaces recv : M value :=
  call_method recv "replace" [ARegExp " " "g"; AVal (VStr "-")]
    (string_method recv (fun s => VStr (Str.replace_spaces s))).

Definition m_remove_special recv : M value :=
  call_method recv "replace"
    [ARegExp "[\\'\-\[\]\/\{\}\(\)\*\+\?\.\\\^\$\|]" "g"; AVal (VStr "")]
    (string_method recv (fun s => VStr (Str.remove_special s))).

Definition m_indexOf recv (p : string) : M value :=
  call_method recv "indexOf" [AVal (VStr p)]
    (string_method recv (fun s => VNum (Int (Str.indexOf p s)))).

Definition m_toLowerCase recv : M value :=
  call_method recv "toLowerCase" [] (string_method recv (fun s => VStr (Str.toLowerCase s))).

Definition m_toUpperCase recv : M value :=
  call_method recv "toUpperCase" [] (string_method recv (fun s => VStr (Str.toUpperCase s))).

Definition m_charAt recv (i : nat) : M value :=
  call_method recv "charAt" [AVal (VNum (Int (Z.of_nat i)))]
    (string_method recv (fun s => VStr (Str.charAt i s))).

Definition m_slice recv (i : nat) : M value :=
  call_method recv "slice" [AVal (VNum (Int (Z.of_nat i)))]
    (string_method recv (fun s => VStr (Str.slice i s))).

(** The end index [substring] makes of its second argument: the length
    for [undefined], [0] for [NaN]. *)
Definition end_index h (len : nat) v : Z :=
  match v with
  | VUndef => Z.of_nat len
  | _ => match ToNumber h v with NaN => 0%Z | Int z => z end
  end.

Definition m_substring recv (start : Z) (stop : value) : M value :=
  call_method recv "substring" [AVal (VNum (Int start)); AVal stop]
    (fun st => string_method recv
       (fun s => VStr (Str.substring start (end_index (heap st) (String.length s) stop) s)) st).

(** [new hbs.SafeString(x)]: a fresh wrapper object. *)
Definition new_SafeString (x : value) : M value := fun st =>
  let l := fresh (dom (heap st)) in
  (Return (VRef l), set_heap (<[l := Obj SafeString {[ "string" := x ]}]> (heap st)) st).

(** [hbs.SafeString(x)] without [new].  Handlebars defines
    [function SafeString(string) { this.string = string; }]; called as a
    method of [hbs] the body stores into [hbs.string], and having no
    [return] the call yields [undefined]. *)
Definition call_SafeString (x : value) : M value := fun st =>
  (Return VUndef, set_hbs_own (<[ "string" := x ]> (hbs_own st)) st).

(** A function of a non-strict module receives the global object for a
    missing [this].  (A primitive [this] would arrive boxed; the engine
    passes the rendering scope, an object.) *)
Definition this_object (this : value) : value :=
  if is_nullish this then VGlobal else this.

End Semantics.

(** ** The helpers

    Each definition follows the function of the same name in
    [src/index.js]; [this] is the scope the engine binds the call to, a
    missing argument is [VUndef]. *)

Section Helpers.

Context {C : Collaborators}.

Definition lift_str (o : outcome string) : M value :=
  match o with
  | Return s => mret (VStr s)
  | Throw e => throw e
  end.

Definition not_a_function : M value := throw TypeError.

Definition ifeq (this a b options : value) : M value :=
  st ← get_state;
  if loose_eq (heap st) a b
  then call_method options "fn" [AVal (this_object this)] not_a_function
  else call_method options "inverse" [AVal (this_object this)] not_a_function.

Definition ifnoteq (this a b options : value) : M value :=
  st ← get_state;
  if negb (loose_eq (heap st) a b)
  then call_method options "fn" [AVal (this_object this)] not_a_function
  else call_method options "inverse" [AVal (this_object this)] not_a_function.

(** [!options && context.hasOwnProperty('hash')] *)
Definition options_omitted (context options : value) : M bool :=
  if ToBoolean options then mret false
  else own ← hasOwnProperty context "hash"; mret (ToBoolean own).

Definition null_to_undefined (v : value) : value :=
  if strict_eq v VNull then VUndef else v.

Definition date (this context options : value) : M value :=
  omitted ← options_omitted context options;
  '(context, options) ←
    (if omitted : bool then
       pd ← get_prop (this_object this) "publishedDate";
       if ToBoolean pd
       then pd' ← get_prop (this_object this) "publishedDate"; mret (pd', context)
       else mret (VUndef, context)
     else mret (context, options));
  let context := null_to_undefined context in
  hash ← get_prop options "hash";
  fmt ← get_prop hash "format";
  let f := if ToBoolean fmt then fmt else VStr "MMM Do, YYYY" in
  hash' ← get_prop options "hash";
  timeago ← get_prop hash' "timeago";
  st ← get_state;
  if ToBoolean timeago
  then lift_str (moment_fromNow (world st) (heap st) context)
  else lift_str (moment_format (world st) (heap st) context f).

(** The properties of the record an options value refers to, as handed
    to a collaborator. *)
Definition record_of (st : state) (v : value) : gmap string value :=
  match v with
  | VRef l => default ∅ (props <$> heap st !! l)
  | VGlobal => globals st
  | _ => ∅
  end.

Definition cloudinaryUrl (this context options : value) : M value :=
  omitted ← options_omitted context options;
  let '(context, options) :=
    if omitted : bool then (this_object this, context) else (context, options) in
  let context := null_to_undefined context in
  hash ← get_prop options "hash";
  format ← get_prop hash "format";
  (if negb (strict_eq format (VStr "svg"))
   then hash' ← get_prop options "hash"; set_prop hash' "fetch_format" (VStr "auto")
   else mret tt);;
  public_id ← get_prop context "public_id";
  if ToBoolean public_id then
    public_id' ← get_prop context "public_id";
    format' ← get_prop context "format";
    imageName ← m_concat public_id' [VStr "."; format'];
    hash' ← get_prop options "hash";
    st ← get_state;
    url ← lift_str (cloudinary_url (heap st) imageName (record_of st hash'));
    m_replace url "http" "https"
  else if strict_eq (VStr (typeof context)) (VStr "string") then
    hash' ← get_prop options "hash";
    st ← get_state;
    tag ← lift_str (cloudinary_image (heap st) context (record_of st hash'));
    m_replace tag "http" "https"
  else mret VUndef.

(** [_helpers.cloudinaryUrl(context, options)]: the callee's [this] is
    the registry object. *)
Definition cloudinaryImg (this context options : value) : M value :=
  st ← get_state;
  cloudinaryUrl (VRef (registry st)) context options.

Definition cdnAsset (this context options : value) : M value :=
  omitted ← options_omitted context options;
  let '(context, options) :=
    if omitted : bool then (this_object this, context) else (context, options) in
  if ToBoolean options then
    hash ← get_prop options "hash";
    env ← get_prop hash "env";
    let env := if negb (ToBoolean env) then VStr "production" else env in
    hash ← get_prop options "hash";
    fetch ← get_prop hash "fetch";
    type ← (if ToBoolean fetch
             then hash ← get_prop options "hash"; get_prop hash "fetch"
             else mret (VStr "raw"));
    hash ← get_prop options "hash";
    path ← get_prop hash "path";
    if ToBoolean path then
      hash ← get_prop options "hash"; product ← get_prop hash "product";
      hash ← get_prop options "hash"; path ← get_prop hash "path";
      hash ← get_prop options "hash"; type' ← get_prop hash "type";
      st ← get_state;
      let publicId := VStr (join (heap st) [product; VStr "/"; path; VStr "."; type']) in
      lift_str (cloudinary_url (heap st) publicId
                  {[ "resource_type" := type; "secure" := VBool true ]})
    else
      hash ← get_prop options "hash"; product ← get_prop hash "product";
      hash ← get_prop options "hash"; type' ← get_prop hash "type";
      st ← get_state;
      let publicId := VStr (join (heap st) [product; VStr "/"; env; VStr "."; type']) in
      let '(random, w) := randomNum 1000 100000000 (world st) in
      put_state (set_world w st);;
      url ← lift_str (cloudinary_url (heap st) publicId
                        {[ "resource_type" := type; "secure" := VBool true ]});
      m_replace url "v1" (prim_to_string (js_add (heap st) (VStr "v") (VNum (Int random))))
  else mret VUndef.

Definition stringified (o : outcome (option string)) : M value :=
  match o with
  | Return (Some s) => mret (VStr s)
  | Return None => mret VUndef
  | Throw e => throw e
  end.

(** The text [<div class="debug-data" style="min-width:1000px">]. *)
Definition dquote : string := String (ascii_of_nat 34) EmptyString.
Definition debug_open : string :=
  "<div class=" ++ dquote ++ "debug-data" ++ dquote
    ++ " style=" ++ dquote ++ "min-width:1000px" ++ dquote ++ ">".

Definition jsonPrint (obj : value) : M value :=
  st ← get_state;
  json ← stringified (JSON_stringify (heap st) obj);
  mret (js_add (heap st)
          (js_add (heap st)
             (VStr debug_open) json)
          (VStr "</div>")).

Definition jsonStr (obj : value) : M value :=
  st ← get_state;
  stringified (JSON_stringify (heap st) obj).

Definition link (text url : value) : M value :=
  st ← get_state;
  let url := VStr (escapeExpression (heap st) url) in
  let text := VStr (escapeExpression (heap st) text) in
  let h := heap st in
  new_SafeString
    (js_add h (js_add h (js_add h (js_add h (VStr "<a href='") url) (VStr "'>")) text)
       (VStr "</a>")).

Definition get_global (k : string) : M value := get_prop VGlobal k.

Definition img (image : value) : M value :=
  filename ← get_prop image "filename";
  st ← get_state;
  if loose_eq (heap st) filename VNull then call_SafeString (VStr "")
  else
    p ← get_prop image "path";
    p' ← m_replace (VStr (escapeExpression (heap st) p)) "./public/" "";
    set_global "path" p';;
    filename ← get_prop image "filename";
    set_global "filename" (VStr (escapeExpression (heap st) filename));;
    path ← get_global "path";
    filename1 ← get_global "filename";
    filename2 ← get_global "filename";
    let h := heap st in
    new_SafeString
      (js_add h (js_add h (js_add h (js_add h (js_add h (js_add h
         (VStr "<img src='") path) (VStr "/")) filename1) (VStr "' alt='")) filename2)
         (VStr "'>")).

Definition incIndex (ind : value) : M value :=
  st ← get_state;
  mret (js_add (heap st) (VNum (parseInt (heap st) ind)) (VNum (Int 1))).

(** The table [cssTypesApp], in the order [Object.keys] lists it. *)
Definition cssTypesApp : list (string * string) :=
  [ ("pdf", "pdf");
    ("zip", "zip");
    ("ogg", "audio");
    ("vnd.openxmlformats-officedocument.wordprocessingml.document", "word");
    ("vnd.openxmlformats-officedocument.presentationml.presentation", "powerpoint");
    ("vnd.openxmlformats-officedocument.spreadsheetml.sheet", "excel") ].

(** The [forEach] over the keys: [if (t === mimeType) cssType = cssTypesApp[t]]. *)
Definition lookup_icon (mimeType : value) : value :=
  fold_left
    (fun cssType '(t, icon) => if strict_eq (VStr t) mimeType then VStr icon else cssType)
    cssTypesApp VUndef.

Definition found (i : value) : bool := negb (strict_eq i (VNum (Int (-1)))).

Definition fileType (file : value) : M value :=
  fileType ← get_prop file "filetype";
  if strict_eq fileType VUndef then mret (VStr "file")
  else
    cssType ←
      (i ← m_indexOf fileType "audio/";
       if found i then mret (VStr "audio")
       else
         i ← m_indexOf fileType "video/";
         if found i then mret (VStr "video")
         else
           i ← m_indexOf fileType "image/";
           if found i then mret (VStr "image")
           else
             ft ← get_prop file "filetype";
             mimeType ← m_replace ft "application/" "";
             mret (lookup_icon mimeType));
    st ← get_state;
    if negb (strict_eq cssType VUndef)
    then mret (js_add (heap st) cssType (VStr "-o"))
    else mret (VStr "file").

Definition trim (str : value) : M value :=
  hyphenated ← m_replace_spaces str;
  m_toLowerCase hyphenated.

Definition limit (str length : value) : M value :=
  len ← get_prop str "length";
  st ← get_state;
  if js_le (heap st) len length then mret str
  else
    cut ← m_substring str 0 length;
    st ← get_state;
    mret (js_add (heap st) cut (VStr "...")).

Definition cleanString (str : value) : M value := m_remove_special str.

Definition emailFormat (str : value) : M value := m_replace str "@" " at ".

Definition upperCase (str : value) : M value :=
  first ← m_charAt str 0;
  upper ← m_toUpperCase first;
  rest ← m_slice str 1;
  st ← get_state;
  mret (js_add (heap st) upper rest).

Definition lowerCase (str : value) : M value := m_toLowerCase str.

Definition pluralize (str : value) : M value :=
  st ← get_state;
  lift_str (pluralize_plural (heap st) str).

Definition trimPluralize (str : value) : M value :=
  plural ← pluralize str;
  trim plural.

Definition secureUrl (str : value) : M value :=
  if negb (strict_eq str VUndef) then m_replace str "http://" "https://"
  else mret str.

(** [new RegExp("<\s*p[^>]*>(.*?)<\s*/\s*p>")]: inside a string literal
    [\s] is the letter s, so the expression is [<s*p[^>]*>(.*?)<s*/s*p>]. *)
Fixpoint skip_s (s : string) : string :=
  match s with
  | String "s" s' => skip_s s'
  | _ => s
  end.

Fixpoint after_gt (s : string) : option string :=
  match s with
  | String ">" s' => Some s'
  | String _ s' => after_gt s'
  | EmptyString => None
  end.

(** [<s*p[^>]*>] at the head of [s]: what follows the tag. *)
Definition open_tag (s : string) : option string :=
  match s with
  | String "<" s1 =>
      match skip_s s1 with
      | String "p" s2 => after_gt s2
      | _ => None
      end
  | _ => None
  end.

(** [<s*/s*p>] at the head of [s]. *)
Definition close_tag (s : string) : bool :=
  match s with
  | String "<" s1 =>
      match skip_s s1 with
      | String "/" s2 =>
          match skip_s s2 with
          | String "p" (String ">" _) => true
          | _ => false
          end
      | _ => false
      end
  | _ => false
  end.

Definition line_terminator (c : ascii) : bool :=
  (Str.code c =? 10)%nat || (Str.code c =? 13)%nat.

(** [(.*?)] followed by the closing tag: the shortest run of characters
    other than line terminators. *)
Fixpoint body (s : string) : option string :=
  if close_tag s then Some EmptyString
  else match s with
       | String c s' => if line_terminator c then None else String c <$> body s'
       | EmptyString => None
       end.

(** [re.exec(s)[1]] at the leftmost position where the expression matches. *)
Fixpoint exec_paragraph (s : string) : option string :=
  match open_tag s ≫= body with
  | Some b => Some b
  | None =>
      match s with
      | String _ s' => exec_paragraph s'
      | EmptyString => None
      end
  end.

Definition removePara (str : value) : M value :=
  if ToBoolean str then
    st ← get_state;
    match exec_paragraph (ToString (heap st) str) with
    | Some group => mret (VStr group)
    | None => mret VUndef
    end
  else mret VUndef.

(** *** The registry [_helpers] *)

Inductive helper :=
  | Hifeq | Hifnoteq | Hdate | HcloudinaryUrl | HcloudinaryImg | HcdnAsset
  | HjsonPrint | HjsonStr | Hlink | Himg | HincIndex | HfileType | Htrim
  | Hlimit | HcleanString | HemailFormat | HupperCase | HlowerCase
  | Hpluralize | HtrimPluralize | HsecureUrl | HremovePara.

Definition arg (args : list value) (i : nat) : value := nth i args VUndef.

Definition invoke (hp : helper) (this : value) (args : list value) : M value :=
  match hp with
  | Hifeq => ifeq this (arg args 0) (arg args 1) (arg args 2)
  | Hifnoteq => ifnoteq this (arg args 0) (arg args 1) (arg args 2)
  | Hdate => date this (arg args 0) (arg args 1)
  | HcloudinaryUrl => cloudinaryUrl this (arg args 0) (arg args 1)
  | HcloudinaryImg => cloudinaryImg this (arg args 0) (arg args 1)
  | HcdnAsset => cdnAsset this (arg args 0) (arg args 1)
  | HjsonPrint => jsonPrint (arg args 0)
  | HjsonStr => jsonStr (arg args 0)
  | Hlink => link (arg args 0) (arg args 1)
  | Himg => img (arg args 0)
  | HincIndex => incIndex (arg args 0)
  | HfileType => fileType (arg args 0)
  | Htrim => trim (arg args 0)
  | Hlimit => limit (arg args 0) (arg args 1)
  | HcleanString => cleanString (arg args 0)
  | HemailFormat => emailFormat (arg args 0)
  | HupperCase => upperCase (arg args 0)
  | HlowerCase => lowerCase (arg args 0)
  | Hpluralize => pluralize (arg args 0)
  | HtrimPluralize => trimPluralize (arg args 0)
  | HsecureUrl => secureUrl (arg args 0)
  | HremovePara => removePara (arg args 0)
  end.

End Helpers.

(** ** What a call may do and return

    The vocabulary of the statement about the registry as a whole: what a
    helper does to the records that existed before the call, and what kind
    of value it hands back. *)

(** The outcome of running [m] from [st] satisfies [Q]. *)
Definition wp {A} (m : M A) (Q : outcome A -> state -> Prop) (st : state) : Prop :=
  Q (m st).1 (m st).2.

(** A value some template-supplied function returned. *)
Definition external {C : Collaborators} (v : value) : Prop :=
  exists f recv args st, call_fun f recv args st = Return v.

Definition external_outcome {C : Collaborators} (o : outcome value) : Prop :=
  match o with
  | Return v => external v
  | Throw _ => True
  end.

Section Effects.

Context {C : Collaborators}.

(** The heap is as it was, but for one new SafeString. *)
Definition safe_string_added (st st' : state) : Prop :=
  heap st' = heap st \/
  exists l s, heap st !! l = None /\
    heap st' = <[l := Obj SafeString {[ "string" := VStr s ]}]> (heap st).

(** What a call of a helper may have changed when it ends, in the heap,
    on the global object and on the handlebars module.

    [cloudinaryUrl] and [cloudinaryImg] change nothing, or the field
    [fetch_format] of one record, or that of the global object when the
    global object is what [options.hash] is.  [link] adds a SafeString.
    [img] adds a SafeString and leaves [path] and [filename] behind as
    globals, or leaves the empty text in [hbs.string].  The other helpers
    change nothing. *)
Definition footprint (hp : helper) (st st' : state) : Prop :=
  match hp with
  | HcloudinaryUrl | HcloudinaryImg =>
      hbs_own st' = hbs_own st /\
      ((heap st' = heap st /\ globals st' = globals st) \/
       (globals st' = globals st /\
        exists l o, heap st !! l = Some o /\
          heap st' =
          <[l := Obj (cls o) (<[ "fetch_format" := VStr "auto" ]> (props o))]> (heap st)) \/
       (heap st' = heap st /\
        globals st' = <[ "fetch_format" := VStr "auto" ]> (globals st)))
  | Hlink =>
      hbs_own st' = hbs_own st /\ globals st' = globals st /\ safe_string_added st st'
  | Himg =>
      safe_string_added st st' /\
      (hbs_own st' = hbs_own st \/
       hbs_own st' = <[ "string" := VStr "" ]> (hbs_own st)) /\
      (globals st' = globals st \/
       (exists p, globals st' = <[ "path" := p ]> (globals st)) \/
       (exists p f, globals st' = <[ "filename" := f ]> (<[ "path" := p ]> (globals st))))
  | _ => heap st' = heap st /\ hbs_own st' = hbs_own st /\ globals st' = globals st
  end.

(** The kinds of value a helper returns: a string, a number, [undefined],
    a SafeString constructed by the call, its own first argument, or what
    a template-supplied function returned. *)
Inductive kind := KString | KNumber | KUndefined | KSafeString | KArgument | KExternal.

Definition has_kind (st st' : state) (args : list value) (k : kind) (v : value) : Prop :=
  match k with
  | KString => exists s, v = VStr s
  | KNumber => exists n, v = VNum n
  | KUndefined => v = VUndef
  | KSafeString =>
      exists l s, v = VRef l /\ heap st !! l = None /\
        heap st' !! l = Some (Obj SafeString {[ "string" := VStr s ]})
  | KArgument => v = arg args 0
  | KExternal => external v
  end.

Definition returns (hp : helper) : list kind :=
  match hp with
  | Hifeq | Hifnoteq => [KExternal]
  | Hdate | HjsonPrint | HfileType | Hpluralize | HtrimPluralize => [KString]
  | HcloudinaryUrl | HcloudinaryImg | HcdnAsset | HjsonStr | HremovePara =>
      [KString; KUndefined]
  | Hlink => [KSafeString]
  | Himg => [KSafeString; KUndefined]
  | HincIndex => [KNumber]
  | Htrim | HcleanString | HemailFormat | HlowerCase => [KString; KExternal]
  | Hlimit => [KString; KArgument]
  | HupperCase => [KString; KNumber]
  | HsecureUrl => [KString; KUndefined; KExternal]
  end.

(** What holds of the outcome [o] and final state [st'] of a call of [hp]
    on [args] from [st]. *)
Definition effects (hp : helper) (st : state) (args : list value)
    (o : outcome value) (st' : state) : Prop :=
  footprint hp st st' /\
  match o with
  | Return v => exists k, k ∈ returns hp /\ has_kind st st' args k v
  | Throw _ => True
  end.

End Effects.

(** ** Further vocabulary *)

(** The primitive values that are not strings: they have none of the
    string methods and no property of their own. *)
Definition not_text (v : value) : bool :=
  match v with
  | VUndef | VNull | VBool _ | VNum _ => true
  | _ => false
  end.

(** The CSS tokens [fileType] can answer: ['file'], and each icon it
    assigns with ['-o'] appended. *)
Definition icon_classes : list string :=
  [ "file"; "audio-o"; "video-o"; "image-o"; "pdf-o"; "zip-o"; "word-o";
    "powerpoint-o"; "excel-o" ].

(** What [if (options.hash['format'] !== 'svg') options.hash['fetch_format'] = 'auto']
    makes of the record [o] that [options.hash] refers to, and of the
    state in which that record lives at [l]. *)
Definition auto_format (o : object) : gmap string value :=
  if strict_eq (default VUndef (props o !! "format")) (VStr "svg") then props o
  else <[ "fetch_format" := VStr "auto" ]> (props o).

Definition with_auto_format (st : state) (l : loc) (o : object) : state :=
  if strict_eq (default VUndef (props o !! "format")) (VStr "svg") then st
  else set_heap (<[l := Obj (cls o) (auto_format o)]> (heap st)) st.

(** ** A concrete host

    Simple stand-ins for the collaborators, to run the helpers on concrete
    inputs. *)

Module Host.

(** Handlebars' escaping table. *)
Definition escape_char (c : ascii) : string :=
  match Str.code c with
  | 38 => "&amp;"
  | 60 => "&lt;"
  | 62 => "&gt;"
  | 34 => "&quot;"
  | 39 => "&#x27;"
  | 96 => "&#x60;"
  | 61 => "&#x3D;"
  | _ => String c EmptyString
  end.

Fixpoint escape (s : string) : string :=
  match s with
  | EmptyString => EmptyString
  | String c s' => escape_char c ++ escape s'
  end.

Definition text_of (v : value) : string :=
  match v with
  | VStr s => s
  | VNum n => Js.NumberToString n
  | VBool true => "true"
  | VBool false => "false"
  | VUndef | VNull => ""
  | _ => "[object Object]"
  end.

Definition scheme (options : gmap string value) : string :=
  match options !! "secure" with
  | Some (VBool true) => "https"
  | _ => "http"
  end.

Definition draw (min max : Z) (w : nat) : Z * nat :=
  ((min + Z.of_nat w mod (max - min + 1))%Z, S w).

#[export] Instance sample : Collaborators := {|
  fun_source := fun _ => "function () { [native code] }";
  fun_prop := fun _ _ => None;
  call_fun := fun f _ _ _ => Return (VStr ("block " ++ pretty f));
  moment_fromNow := fun _ _ _ => Return "a few seconds ago";
  moment_format := fun _ _ _ f => Return (text_of f);
  cloudinary_url := fun _ id options =>
    Return (scheme options ++ "://res.cloudinary.com/demo/"
              ++ text_of (default (VStr "image") (options !! "resource_type"))
              ++ "/upload/v1/" ++ text_of id);
  cloudinary_image := fun _ id _ =>
    Return ("<img src='http://res.cloudinary.com/demo/image/upload/" ++ text_of id ++ "' />");
  randomNum := draw;
  JSON_stringify := fun _ v =>
    Return (match v with VUndef | VFun _ => None | _ => Some (text_of v) end);
  escapeExpression := fun _ v => escape (text_of v);
  pluralize_plural := fun _ v => Return (text_of v ++ "s")
|}.

(** A store holding the registry at location 1 and the given records at
    locations 2, 3, ... *)
Definition store (records : list (gmap string value)) : state :=
  State (list_to_map
           (zip (Pos.of_nat <$> seq 1 (S (List.length records)))
                (Obj Plain <$> (∅ :: records))))
        ∅ ∅ 1%positive 0 [].

Definition empty : state := store [].

(** An image descriptor at 2, a helper-options record at 3, its [hash] at 4. *)
Definition image_call : state :=
  store [ {[ "public_id" := VStr "sample"; "format" := VStr "png" ]};
          {[ "hash" := VRef 4%positive ]};
          {[ "width" := VNum (Int 640) ]} ].

(** A helper-options record at 2 and its [hash] at 3. *)
Definition options_call (hash : gmap string value) : state :=
  store [ {[ "hash" := VRef 3%positive ]}; hash ].

(** A block-options record at 2. *)
Definition block_call : state :=
  store [ {[ "fn" := VFun 0; "inverse" := VFun 1 ]} ].

(** A descriptor at 2. *)
Definition descriptor (fields : gmap string value) : state := store [ fields ].

End Host.

(** * Properties *)

(** ** Strings *)

Module StrFacts.

Lemma length_take n s : String.length (Str.take n s) = Nat.min n (String.length s).
Proof.
  revert s; induction n as [|n IH]; intros [|c s]; simpl; auto.
Qed.

Lemma take_all n s : (String.length s <= n)%nat -> Str.take n s = s.
Proof.
  revert n; induction s as [|c s IH]; intros [|n] H; simpl in *;
    try lia; auto.
  f_equal. apply IH. lia.
Qed.

Lemma take_app n s t : n = String.length s -> Str.take n (s ++ t) = s.
Proof.
  intros ->. induction s as [|c s IH]; simpl.
  - destruct t; reflexivity.
  - now rewrite IH.
Qed.

Lemma length_app s t : String.length (s ++ t) = (String.length s + String.length t)%nat.
Proof. induction s; simpl; auto. Qed.

Lemma substring_from_0 n s :
  Str.substring 0 n s = Str.take (Z.to_nat n) s.
Proof.
  unfold Str.substring, Str.clamp. simpl Z.to_nat.
  rewrite Nat.min_0_l, Nat.max_0_l, Nat.min_0_l, Nat.sub_0_r.
  replace (Str.drop 0 s) with s by (destruct s; reflexivity).
  destruct (Nat.le_ge_cases (Z.to_nat n) (String.length s)) as [H|H].
  - now rewrite Nat.min_l.
  - rewrite Nat.min_r by assumption.
    now rewrite !take_all by lia.
Qed.

Lemma map_map f g s : Str.map f (Str.map g s) = Str.map (fun c => f (g c)) s.
Proof. induction s; simpl; congruence. Qed.

Lemma map_ext f g s : (forall c, f c = g c) -> Str.map f s = Str.map g s.
Proof. intros E. induction s; simpl; congruence. Qed.

Lemma forallb_map p f s :
  (forall c, p (f c) = true) -> Str.forallb p (Str.map f s) = true.
Proof. intros H. induction s; simpl; auto. now rewrite H. Qed.

Lemma lower_char_idem c : Str.lower_char (Str.lower_char c) = Str.lower_char c.
Proof. destruct c as [[] [] [] [] [] [] [] []]; reflexivity. Qed.

Lemma lower_char_not_upper c : Str.is_upper (Str.lower_char c) = false.
Proof. destruct c as [[] [] [] [] [] [] [] []]; reflexivity. Qed.

Lemma prefix_cons c p d s :
  String.prefix (String c p) (String d s) = (if ascii_dec c d then String.prefix p s else false).
Proof. reflexivity. Qed.
Lemma app_cons c p s : String c p ++ s = String c (p ++ s).
Proof. reflexivity. Qed.
Lemma app_nil s : "" ++ s = s.
Proof. reflexivity. Qed.
Lemma prefix_split p s : String.prefix p s = true -> s = p ++ Str.drop (String.length p) s.
Proof.
  revert s; induction p as [|c p IH]; intros s H.
  - destruct s; reflexivity.
  - destruct s as [|d s]; [discriminate|].
    rewrite prefix_cons in H.
    destruct (ascii_dec c d) as [->|]; [|discriminate].
    simpl. rewrite app_cons. f_equal. now apply IH.
Qed.
Lemma find_eq p s i :
  Str.find p s i =
  if String.prefix p s then Some i
  else match s with "" => None | String _ s' => Str.find p s' (S i) end.
Proof. destruct s; reflexivity. Qed.
Lemma replace_eq p r s :
  Str.replace p r s =
  if String.prefix p s then r ++ Str.drop (String.length p) s
  else match s with "" => "" | String c s' => String c (Str.replace p r s') end.
Proof. destruct s; reflexivity. Qed.
Lemma replace_absent p r s : Str.find p s 0 = None -> Str.replace p r s = s.
Proof.
  generalize 0%nat. induction s as [|c s IH]; intros i;
    rewrite find_eq, replace_eq; destruct (String.prefix p _); try discriminate.
  - reflexivity.
  - intros H. f_equal. eapply IH, H.
Qed.
Lemma prefix_app p s : String.prefix p (p ++ s) = true.
Proof.
  induction p as [|c p IH].
  - rewrite app_nil. now destruct s.
  - rewrite app_cons, prefix_cons. destruct (ascii_dec c c); [assumption | congruence].
Qed.
Lemma drop_app s t : Str.drop (String.length s) (s ++ t) = t.
Proof. induction s; rewrite ?app_cons, ?app_nil; simpl; auto. Qed.

Lemma replace_prefix p r s : Str.replace p r (p ++ s) = r ++ s.
Proof. now rewrite replace_eq, prefix_app, drop_app. Qed.

Lemma find_shift p s i j n :
  Str.find p s i = Some n -> Str.find p s (i + j) = Some (n + j)%nat.
Proof.
  revert i; induction s as [|c s IH]; intros i;
    rewrite (find_eq p _ i), (find_eq p _ (i + j)); destruct (String.prefix p _).
  - now intros [= ->].
  - discriminate.
  - now intros [= ->].
  - intros H. apply (IH (S i)), H.
Qed.

Lemma find_none_shift p s i j : Str.find p s i = None -> Str.find p s j = None.
Proof.
  revert i j; induction s as [|c s IH]; intros i j;
    rewrite (find_eq p _ i), (find_eq p _ j); destruct (String.prefix p _); try discriminate.
  - reflexivity.
  - apply IH.
Qed.

Lemma contains_false p s : Str.contains p s = false <-> Str.find p s 0 = None.
Proof.
  unfold Str.contains, Str.indexOf.
  destruct (Str.find p s 0) as [i|]; simpl.
  - split; [|discriminate]. intros H. apply negb_false_iff, Z.eqb_eq in H. lia.
  - split; reflexivity.
Qed.

Lemma contains_prefix p s : String.prefix p s = true -> Str.contains p s = true.
Proof.
  intros H. unfold Str.contains, Str.indexOf. now rewrite find_eq, H.
Qed.

Lemma app_assoc (a b c : string) : (a ++ b) ++ c = a ++ b ++ c.
Proof. induction a; [reflexivity|]. rewrite !app_cons. congruence. Qed.

Lemma app_empty_r (a : string) : a ++ "" = a.
Proof. induction a; [reflexivity|]. rewrite app_cons. congruence. Qed.

(** Where the first occurrence of [p] is, [replace] puts [r]. *)
Lemma replace_at p r a b :
  Str.find p (a ++ p ++ b) 0 = Some (String.length a) ->
  Str.replace p r (a ++ p ++ b) = a ++ r ++ b.
Proof.
  induction a as [|c a IH]; intros H.
  - rewrite !app_nil. apply replace_prefix.
  - rewrite app_cons in *. rewrite find_eq in H. rewrite replace_eq.
    destruct (String.prefix p (String c (a ++ p ++ b))); [discriminate|].
    rewrite app_cons. f_equal. apply IH.
    destruct (Str.find p (a ++ p ++ b) 0) as [i|] eqn:E.
    + apply (find_shift _ _ 0 1) in E. simpl in E, H. rewrite E in H.
      injection H as H. f_equal. lia.
    + apply (find_none_shift _ _ 0 1) in E. simpl in H. congruence.
Qed.

Lemma length_map (f : ascii -> ascii) (s : string) :
  String.length (Str.map f s) = String.length s.
Proof. induction s as [|c s IH]; simpl; congruence. Qed.

Lemma map_id (f : ascii -> ascii) (p : ascii -> bool) (s : string) :
  (forall c, p c = true -> f c = c) -> Str.forallb p s = true -> Str.map f s = s.
Proof.
  intros Hf. induction s as [|c s IH]; [reflexivity|]. cbn [Str.forallb Str.map].
  intros [Hc Hs]%andb_true_iff. now rewrite (Hf c Hc), IH.
Qed.

Lemma mem_cons (c d : ascii) (s : string) :
  Str.mem c (String d s) = false -> Ascii.eqb d c = false /\ Str.mem c s = false.
Proof.
  cbn [Str.mem]. intros [H1 H2]%orb_false_iff. now rewrite Ascii.eqb_sym.
Qed.

Lemma mem_app (c : ascii) (s t : string) :
  Str.mem c (s ++ t) = Str.mem c s || Str.mem c t.
Proof.
  induction s as [|d s IH]; [reflexivity|].
  rewrite app_cons. cbn [Str.mem]. now rewrite IH, orb_assoc.
Qed.

Lemma upper_char_idem (c : ascii) : Str.upper_char (Str.upper_char c) = Str.upper_char c.
Proof. destruct c as [[] [] [] [] [] [] [] []]; reflexivity. Qed.

Lemma lower_upper_char (c : ascii) : Str.lower_char (Str.upper_char c) = Str.lower_char c.
Proof. destruct c as [[] [] [] [] [] [] [] []]; reflexivity. Qed.

End StrFacts.

(** ** Numbers and their decimal text *)

Module NumFacts.

Lemma digit_pretty_N_char (d : N) :
  (d < 10)%N -> Js.digit (pretty_N_char d) = Some (Z.of_N d).
Proof.
  intros H.
  assert (d = 0 \/ d = 1 \/ d = 2 \/ d = 3 \/ d = 4 \/ d = 5 \/ d = 6 \/ d = 7 \/ d = 8 \/ d = 9)%N
    as Hd by lia.
  repeat destruct Hd as [->|Hd]; try subst d; reflexivity.
Qed.

(** Reading the decimal digits of a positive [x] in front of [s] shifts
    the accumulator by the number of digits and adds [x]. *)
Lemma read_digits_pretty_N_go (x : N) :
  (0 < x)%N ->
  exists k : Z, forall (s : string) (acc : option Z),
    Js.read_digits Js.digit 10 (pretty_N_go x s) acc =
    Js.read_digits Js.digit 10 s (Some (default 0 acc * 10 ^ k + Z.of_N x)%Z) /\ (0 < k)%Z.
Proof.
  induction (N.lt_wf_0 x) as [x _ IH]. intros Hx.
  assert (x < 10 \/ 10 <= x)%N as [Hs|Hl] by lia.
  - exists 1%Z. intros s acc. split; [|lia].
    rewrite pretty_N_go_step by done.
    rewrite N.div_small, N.mod_small, pretty_N_go_0 by done.
    cbn [Js.read_digits]. rewrite digit_pretty_N_char by done.
    do 2 f_equal; try lia.
  - destruct (IH (x `div` 10)%N) as [k Hk].
    { apply N.div_lt; lia. }
    { apply N.div_str_pos. lia. }
    exists (k + 1)%Z. intros s acc. rewrite pretty_N_go_step by lia.
    destruct (Hk (String (pretty_N_char (x `mod` 10)) s) acc) as [-> Hpos].
    split; [|lia].
    cbn [Js.read_digits]. rewrite digit_pretty_N_char by (apply N.mod_lt; lia).
    cbn [default from_option id]. do 2 f_equal.
    rewrite Z.pow_add_r by lia.
    assert (x = 10 * (x `div` 10) + x `mod` 10)%N as Hdm by (apply N.div_mod; lia).
    rewrite Hdm at 3. rewrite N2Z.inj_add, N2Z.inj_mul. change (Z.of_N 10) with 10%Z. lia.
Qed.

(** The text of a positive number begins with one of the digits 1-9. *)
Lemma pretty_N_go_head (x : N) (s : string) :
  (0 < x)%N ->
  exists (d : N) (rest : string),
    (0 < d < 10)%N /\ pretty_N_go x s = String (pretty_N_char d) rest.
Proof.
  revert s. induction (N.lt_wf_0 x) as [x _ IH]. intros s Hx.
  assert (x < 10 \/ 10 <= x)%N as [Hs|Hl] by lia.
  - exists x, s. split; [lia|].
    rewrite pretty_N_go_step by done.
    now rewrite N.div_small, N.mod_small, pretty_N_go_0.
  - rewrite pretty_N_go_step by done. apply IH.
    + apply N.div_lt; lia.
    + apply N.div_str_pos. lia.
Qed.

Lemma pretty_N_char_not_space (d : N) : negb (Str.is_space (pretty_N_char d)) = true.
Proof. unfold pretty_N_char. repeat case_match; reflexivity. Qed.

Lemma pretty_N_go_digits (x : N) (s : string) :
  Str.forallb (fun c => negb (Str.is_space c)) s = true ->
  Str.forallb (fun c => negb (Str.is_space c)) (pretty_N_go x s) = true.
Proof.
  revert s. induction (N.lt_wf_0 x) as [x _ IH]. intros s Hs.
  assert (x = 0 \/ 0 < x)%N as [->|Hx] by lia; [now rewrite pretty_N_go_0|].
  rewrite pretty_N_go_step by done. apply IH; [apply N.div_lt; lia|].
  cbn [Str.forallb]. rewrite Hs, andb_true_r.
  apply pretty_N_char_not_space.
Qed.

Lemma rtrim_id (s : string) :
  Str.forallb (fun c => negb (Str.is_space c)) s = true -> Js.rtrim s = s.
Proof.
  induction s as [|c s IH]; [reflexivity|]. cbn [Str.forallb Js.rtrim].
  intros [Hc Hs]%andb_true_iff. rewrite (IH Hs).
  apply negb_true_iff in Hc. now rewrite Hc.
Qed.

Lemma pretty_pos (p : positive) : pretty (Z.pos p) = pretty_N_go (N.pos p) "".
Proof. reflexivity. Qed.

Lemma pretty_neg (p : positive) : pretty (Z.neg p) = String "-" (pretty_N_go (N.pos p) "").
Proof. reflexivity. Qed.

Ltac digit_cases d H :=
  assert (d = 1 \/ d = 2 \/ d = 3 \/ d = 4 \/ d = 5 \/ d = 6 \/ d = 7 \/ d = 8 \/ d = 9)%N
    as H by lia;
  repeat destruct H as [->|H]; try subst d.

Lemma pretty_N_go_app (x : N) (s t : string) :
  pretty_N_go x s ++ t = pretty_N_go x (s ++ t).
Proof.
  revert s. induction (N.lt_wf_0 x) as [x _ IH]. intros s.
  assert (x = 0 \/ 0 < x)%N as [->|Hx] by lia; [now rewrite !pretty_N_go_0|].
  rewrite (pretty_N_go_step x s), (pretty_N_go_step x (s ++ t)) by done.
  rewrite IH by (apply N.div_lt; lia). now rewrite StrFacts.app_cons.
Qed.

Lemma read_digits_some (s : string) (a : Z) :
  exists b, fst (Js.read_digits Js.digit 10 s (Some a)) = Some b.
Proof.
  revert a. induction s as [|c s IH]; intros a; cbn [Js.read_digits]; [now exists a|].
  destruct (Js.digit c); [apply IH | now exists a].
Qed.

(** Reading stops where no digit follows. *)
Lemma read_digits_stop (s : string) (a : Z) :
  fst (Js.read_digits Js.digit 10 s None) = None ->
  Js.read_digits Js.digit 10 s (Some a) = (Some a, s).
Proof.
  destruct s as [|c s]; [reflexivity|]. cbn [Js.read_digits].
  destruct (Js.digit c); [|reflexivity].
  intros H. destruct (read_digits_some s (default 0 None * 10 + z)%Z) as [b Hb]. congruence.
Qed.

Lemma read_digits_pretty (x : N) (rest : string) :
  (0 < x)%N ->
  fst (Js.read_digits Js.digit 10 rest None) = None ->
  Js.read_digits Js.digit 10 (pretty_N_go x rest) None = (Some (Z.of_N x), rest).
Proof.
  intros Hx Hrest. destruct (read_digits_pretty_N_go x Hx) as [k Hk].
  destruct (Hk rest None) as [-> _]. now rewrite read_digits_stop.
Qed.

Lemma parseInt_string_digit (d : N) (r : string) :
  (0 < d < 10)%N ->
  Js.parseInt_string (String (pretty_N_char d) r) =
  match fst (Js.read_digits Js.digit 10 (String (pretty_N_char d) r) None) with
  | Some n => Int (1 * n)
  | None => NaN
  end.
Proof. intros Hd. digit_cases d H; reflexivity. Qed.

Lemma parseInt_string_minus_digit (d : N) (r : string) :
  (0 < d < 10)%N ->
  Js.parseInt_string (String "-" (String (pretty_N_char d) r)) =
  match fst (Js.read_digits Js.digit 10 (String (pretty_N_char d) r) None) with
  | Some n => Int (-1 * n)
  | None => NaN
  end.
Proof. intros Hd. digit_cases d H; reflexivity. Qed.

(** [parseInt] reads back the decimal text of an integer other than [0],
    whatever follows it, unless that is another digit. *)
Lemma parseInt_pretty_prefix (z : Z) (rest : string) :
  z <> 0%Z ->
  fst (Js.read_digits Js.digit 10 rest None) = None ->
  Js.parseInt_string (pretty z ++ rest) = Int z.
Proof.
  intros Hz Hrest. destruct z as [|p|p]; [done| |].
  - rewrite pretty_pos, pretty_N_go_app, StrFacts.app_nil.
    destruct (pretty_N_go_head (N.pos p) rest) as (d & r & Hd & E); [lia|].
    rewrite E, parseInt_string_digit by done. rewrite <- E.
    rewrite read_digits_pretty by (done || lia). cbn [fst]. f_equal; lia.
  - rewrite pretty_neg, StrFacts.app_cons, pretty_N_go_app, StrFacts.app_nil.
    destruct (pretty_N_go_head (N.pos p) rest) as (d & r & Hd & E); [lia|].
    rewrite E, parseInt_string_minus_digit by done. rewrite <- E.
    rewrite read_digits_pretty by (done || lia). cbn [fst]. f_equal; lia.
Qed.

Lemma parseInt_pretty (z : Z) : Js.parseInt_string (pretty z) = Int z.
Proof.
  destruct (decide (z = 0%Z)) as [->|Hz]; [reflexivity|].
  rewrite <- (StrFacts.app_empty_r (pretty z)). now apply parseInt_pretty_prefix.
Qed.

Lemma skip_spaces_id (s : string) :
  Str.forallb (fun c => negb (Str.is_space c)) s = true -> Str.skip_spaces s = s.
Proof.
  destruct s as [|c s]; [reflexivity|]. cbn [Str.forallb Str.skip_spaces].
  intros [Hc _]%andb_true_iff. apply negb_true_iff in Hc. now rewrite Hc.
Qed.

(** The conversion of a string to a number reads back the decimal text
    of an integer. *)
Lemma StringToNumber_pretty (z : Z) : Js.StringToNumber (pretty z) = Int z.
Proof.
  destruct z as [|p|p]; [reflexivity| |].
  - unfold Js.StringToNumber. rewrite pretty_pos.
    rewrite skip_spaces_id, rtrim_id by now apply pretty_N_go_digits.
    destruct (pretty_N_go_head (N.pos p) "") as (d & r & Hd & E); [lia|].
    rewrite E. 
    replace (Js.read_sign (String (pretty_N_char d) r)) with (1%Z, String (pretty_N_char d) r)
      by (digit_cases d H; reflexivity).
    cbn [String.eqb]. rewrite <- E, read_digits_pretty by (done || lia).
    f_equal; lia.
  - unfold Js.StringToNumber. rewrite pretty_neg.
    assert (Str.forallb (fun c => negb (Str.is_space c)) (String "-" (pretty_N_go (N.pos p) ""))
            = true) as Hns by (cbn [Str.forallb]; now rewrite pretty_N_go_digits).
    rewrite skip_spaces_id, rtrim_id by done.
    cbn [String.eqb Js.read_sign Ascii.eqb Bool.eqb].
    rewrite read_digits_pretty by (done || lia). f_equal; lia.
Qed.

End NumFacts.

(** ** Running the primitives *)

Section Run.

Context {C : Collaborators}.

Lemma run_bind {A B} (m : M A) (k : A -> M B) st :
  (m ≫= k) st =
  match m st with
  | (Return a, st') => k a st'
  | (Throw e, st') => (Throw e, st')
  end.
Proof. reflexivity. Qed.

Lemma run_bind_return {A B} (m : M A) (k : A -> M B) st a st' :
  m st = (Return a, st') -> (m ≫= k) st = k a st'.
Proof. intros H. now rewrite run_bind, H. Qed.

Lemma run_bind_throw {A B} (m : M A) (k : A -> M B) st e st' :
  m st = (Throw e, st') -> (m ≫= k) st = (Throw e, st').
Proof. intros H. now rewrite run_bind, H. Qed.

(** A key that is neither [length] nor an index names no own property
    of a string, so the built-in method is reached. *)
Lemma own_prop_method st s k :
  String.eqb k "length" = false ->
  fst (Js.read_digits Js.digit 10 k None) = None ->
  own_prop st (VStr s) k = None.
Proof.
  intros Hk Hd. unfold own_prop, string_index. rewrite Hk.
  destruct (Js.read_digits Js.digit 10 k None) as [o r]. simpl in Hd. now subst o.
Qed.

Lemma call_method_string st s name args builtin :
  String.eqb name "length" = false ->
  fst (Js.read_digits Js.digit 10 name None) = None ->
  call_method (VStr s) name args builtin st = builtin st.
Proof.
  intros Hk Hd. unfold call_method. simpl is_nullish. cbv iota.
  now rewrite own_prop_method.
Qed.

Ltac builtin := intros; rewrite call_method_string by reflexivity; reflexivity.

Lemma run_length st s :
  get_prop (VStr s) "length" st = (Return (VNum (Int (Z.of_nat (String.length s)))), st).
Proof. reflexivity. Qed.

Lemma run_replace st s pat rep :
  m_replace (VStr s) pat rep st = (Return (VStr (Str.replace pat rep s)), st).
Proof. unfold m_replace. builtin. Qed.

Lemma run_replace_spaces st s :
  m_replace_spaces (VStr s) st = (Return (VStr (Str.replace_spaces s)), st).
Proof. unfold m_replace_spaces. builtin. Qed.

Lemma run_remove_special st s :
  m_remove_special (VStr s) st = (Return (VStr (Str.remove_special s)), st).
Proof. unfold m_remove_special. builtin. Qed.

Lemma run_indexOf st s p :
  m_indexOf (VStr s) p st = (Return (VNum (Int (Str.indexOf p s))), st).
Proof. unfold m_indexOf. builtin. Qed.

Lemma run_toLowerCase st s :
  m_toLowerCase (VStr s) st = (Return (VStr (Str.toLowerCase s)), st).
Proof. unfold m_toLowerCase. builtin. Qed.

Lemma run_toUpperCase st s :
  m_toUpperCase (VStr s) st = (Return (VStr (Str.toUpperCase s)), st).
Proof. unfold m_toUpperCase. builtin. Qed.

Lemma run_charAt st s i :
  m_charAt (VStr s) i st = (Return (VStr (Str.charAt i s)), st).
Proof. unfold m_charAt. builtin. Qed.

Lemma run_slice st s i :
  m_slice (VStr s) i st = (Return (VStr (Str.slice i s)), st).
Proof. unfold m_slice. builtin. Qed.

Lemma run_substring st s a b :
  m_substring (VStr s) a b st =
  (Return (VStr (Str.substring a (end_index (heap st) (String.length s) b) s)), st).
Proof. unfold m_substring. builtin. Qed.

Lemma js_add_strings h (a b : string) : js_add h (VStr a) (VStr b) = VStr (a ++ b).
Proof. reflexivity. Qed.

Lemma run_concat st s args :
  m_concat (VStr s) args st =
  (Return (VStr (s ++ Str.concat (ToString (heap st) <$> args))), st).
Proof. unfold m_concat. builtin. Qed.

End Run.

Create Rewrite HintDb run.
#[global] Hint Rewrite @run_length @run_replace @run_replace_spaces @run_remove_special
  @run_indexOf @run_toLowerCase @run_toUpperCase @run_charAt @run_slice
  @run_substring @run_concat : run.

(** Steps through a computation whose primitives act on strings. *)
Ltac run :=
  repeat (rewrite run_bind; autorewrite with run; cbv beta iota);
  autorewrite with run.

(** ** [limit] *)

Section Limit.

Context {C : Collaborators}.

Lemma run_limit (s : string) (n : Z) (st : state) :
  limit (VStr s) (VNum (Int n)) st =
  (Return (VStr (if (Z.of_nat (String.length s) <=? n)%Z then s
                 else Str.take (Z.to_nat n) s ++ "...")), st).
Proof.
  unfold limit. run.
  change (get_state st) with (Return st, st). cbv beta iota.
  change (js_le (heap st) (VNum (Int (Z.of_nat (String.length s)))) (VNum (Int n)))
    with (Z.of_nat (String.length s) <=? n)%Z.
  destruct (Z.of_nat (String.length s) <=? n)%Z; [reflexivity|].
  run. change (get_state st) with (Return st, st). cbv beta iota.
  change (end_index (heap st) (String.length s) (VNum (Int n))) with n.
  now rewrite StrFacts.substring_from_0.
Qed.

(** C5.  For every string [s] and integer [n]: when the length of [s] is
    at most [n] (so also when the two are equal) [limit(s, n)] is [s];
    otherwise it is the first [n] characters of [s] followed by ["..."]. *)
Theorem limit_spec (s : string) (n : Z) (st : state) :
  ((Z.of_nat (String.length s) <= n)%Z ->
     limit (VStr s) (VNum (Int n)) st = (Return (VStr s), st)) /\
  ((n < Z.of_nat (String.length s))%Z ->
     limit (VStr s) (VNum (Int n)) st =
     (Return (VStr (Str.take (Z.to_nat n) s ++ "...")), st)).
Proof.
  rewrite run_limit. split; intros H.
  - apply Z.leb_le in H. now rewrite H.
  - apply Z.leb_gt in H. now rewrite H.
Qed.

(** C10.  [limit] is idempotent at a fixed length: for every string [s]
    and non-negative integer [n], [limit(s, n)] returns a string [r], and
    limiting [r] to [n] again returns [r], also when [r] ends in the added
    ["..."]. *)
Theorem limit_idempotent (s : string) (n : nat) (st : state) :
  exists r : string,
    limit (VStr s) (VNum (Int (Z.of_nat n))) st = (Return (VStr r), st) /\
    limit (VStr r) (VNum (Int (Z.of_nat n))) st = (Return (VStr r), st).
Proof.
  eexists. split; [apply run_limit|].
  rewrite run_limit. do 3 f_equal.
  destruct (Z.leb_spec (Z.of_nat (String.length s)) (Z.of_nat n)) as [Hle|Hlt].
  - apply Z.leb_le in Hle. now rewrite Hle.
  - rewrite Nat2Z.id.
    rewrite StrFacts.length_app, StrFacts.length_take, Nat.min_l by lia.
    simpl String.length.
    destruct (Z.leb_spec (Z.of_nat (n + 3)) (Z.of_nat n)) as [H|_]; [lia|].
    rewrite StrFacts.take_app; [reflexivity|].
    rewrite StrFacts.length_take. lia.
Qed.

End Limit.

(** ** [trim] and [upperCase] *)

Section Case.

Context {C : Collaborators}.

(** What [trim] does to a character. *)
Local Abbreviation trim_char :=
  (fun c : ascii => Str.lower_char (if Ascii.eqb c Str.space then Str.hyphen else c)).

Lemma trim_char_idem c : trim_char (trim_char c) = trim_char c.
Proof. destruct c as [[] [] [] [] [] [] [] []]; reflexivity. Qed.

Lemma trim_char_not_space c : Ascii.eqb (trim_char c) Str.space = false.
Proof. destruct c as [[] [] [] [] [] [] [] []]; reflexivity. Qed.

Lemma trim_char_not_upper c : Str.is_upper (trim_char c) = false.
Proof. destruct c as [[] [] [] [] [] [] [] []]; reflexivity. Qed.

Lemma run_trim (s : string) (st : state) :
  trim (VStr s) st = (Return (VStr (Str.map trim_char s)), st).
Proof.
  unfold trim. run. unfold Str.toLowerCase, Str.replace_spaces.
  now rewrite StrFacts.map_map.
Qed.

Lemma mem_map_absent (f : ascii -> ascii) (c : ascii) (s : string) :
  (forall d, Ascii.eqb (f d) c = false) -> Str.mem c (Str.map f s) = false.
Proof.
  intros H. induction s as [|d s IH]; simpl; [reflexivity|].
  rewrite IH, orb_false_r, Ascii.eqb_sym. apply H.
Qed.

(** C6.  For every string [s], [trim(s)] returns a string that holds no
    space, that has no upper-case letter and is its own lower-casing, and
    that [trim] returns unchanged: [trim(trim(s)) = trim(s)]. *)
Theorem trim_spec (s : string) (st : state) :
  exists t : string,
    trim (VStr s) st = (Return (VStr t), st) /\
    Str.mem Str.space t = false /\
    Str.forallb (fun c => negb (Str.is_upper c)) t = true /\
    Str.toLowerCase t = t /\
    trim (VStr t) st = (Return (VStr t), st).
Proof.
  exists (Str.map trim_char s). split; [apply run_trim|].
  split; [apply mem_map_absent, trim_char_not_space|].
  split.
  { apply StrFacts.forallb_map. intros c. now rewrite trim_char_not_upper. }
  split.
  { unfold Str.toLowerCase. rewrite StrFacts.map_map. apply StrFacts.map_ext.
    intros c. apply StrFacts.lower_char_idem. }
  rewrite run_trim, StrFacts.map_map. do 3 f_equal.
  apply StrFacts.map_ext, trim_char_idem.
Qed.


End Case.

(** ** [secureUrl] *)

Section SecureUrl.

Context {C : Collaborators}.

Lemma run_secureUrl (s : string) (st : state) :
  secureUrl (VStr s) st = (Return (VStr (Str.replace "http://" "https://" s)), st).
Proof. unfold secureUrl. simpl. apply run_replace. Qed.

Lemma find_past_https (t : string) (i : nat) :
  Str.find "http://" ("https://" ++ t) i = Str.find "http://" t (8 + i).
Proof. reflexivity. Qed.

(** C4, amended.  [secureUrl(undefined)] returns [undefined] without
    throwing; a string beginning with [http://] has that prefix replaced by
    [https://]; a string in which [http://] does not occur is returned
    unchanged, and so is a string beginning with [https://] in the rest of
    which [http://] does not occur ([secureUrl("https://x")] is
    ["https://x"]); in every other string, wherever it begins, the first
    occurrence of [http://] is replaced. *)
Theorem secureUrl_spec (st : state) :
  secureUrl VUndef st = (Return VUndef, st) /\
  (forall t : string,
     secureUrl (VStr ("http://" ++ t)) st = (Return (VStr ("https://" ++ t)), st)) /\
  (forall s : string,
     Str.contains "http://" s = false ->
     secureUrl (VStr s) st = (Return (VStr s), st)) /\
  (forall t : string,
     Str.contains "http://" t = false ->
     secureUrl (VStr ("https://" ++ t)) st = (Return (VStr ("https://" ++ t)), st)) /\
  secureUrl (VStr "https://x") st = (Return (VStr "https://x"), st) /\
  (forall a b : string,
     Str.find "http://" (a ++ "http://" ++ b) 0 = Some (String.length a) ->
     secureUrl (VStr (a ++ "http://" ++ b)) st =
     (Return (VStr (a ++ "https://" ++ b)), st)).
Proof.
  assert (forall s, Str.contains "http://" s = false ->
            secureUrl (VStr s) st = (Return (VStr s), st)) as Habsent.
  { intros s H. rewrite run_secureUrl, StrFacts.replace_absent; [reflexivity|].
    now apply StrFacts.contains_false. }
  split; [reflexivity|].
  split. { intros t. rewrite run_secureUrl. now rewrite StrFacts.replace_prefix. }
  split; [exact Habsent|].
  split.
  { intros t H. apply Habsent, StrFacts.contains_false. rewrite find_past_https.
    apply StrFacts.contains_false in H. eapply StrFacts.find_none_shift, H. }
  split; [reflexivity|].
  intros a b H. rewrite run_secureUrl. now rewrite (StrFacts.replace_at _ _ _ _ H).
Qed.

End SecureUrl.

(** ** [fileType] *)

Section FileType.

Context {C : Collaborators}.

Lemma strict_eq_strings (s t : string) : strict_eq (VStr s) (VStr t) = String.eqb s t.
Proof.
  unfold strict_eq. destruct (String.eqb_spec s t) as [->|H].
  - now apply bool_decide_eq_true.
  - apply bool_decide_eq_false. congruence.
Qed.

Lemma found_indexOf (p s : string) :
  found (VNum (Int (Str.indexOf p s))) = Str.contains p s.
Proof. reflexivity. Qed.

(** The loop over the keys finds the entry of the table, if any. *)
Lemma lookup_icon_find (m : string) :
  lookup_icon (VStr m) =
  match List.find (fun e => String.eqb (fst e) m) cssTypesApp with
  | Some (_, icon) => VStr icon
  | None => VUndef
  end.
Proof.
  unfold lookup_icon, cssTypesApp. cbn [fold_left List.find fst].
  rewrite !strict_eq_strings.
  repeat match goal with
         | |- context [String.eqb ?k m] => destruct (String.eqb_spec k m) as [<-|?]
         end; try reflexivity; try discriminate.
Qed.

(** C2, amended.  For a descriptor without a [filetype] field [fileType]
    returns ['file'].  For a MIME string it returns ['audio-o'] when
    [audio/] occurs in the string, else ['video-o'] when [video/] occurs,
    else ['image-o'] when [image/] occurs, wherever in the string that is;
    otherwise the string with its first [application/] removed is looked
    up in the fixed table and the icon found is returned with ['-o']
    appended; a string matching none of these gives ['file']. *)
Theorem fileType_spec (file : value) (st : state) (ft : value) :
  get_prop file "filetype" st = (Return ft, st) ->
  (ft = VUndef -> fileType file st = (Return (VStr "file"), st)) /\
  (forall s : string, ft = VStr s ->
     fileType file st =
     (Return (VStr
        (if Str.contains "audio/" s then "audio-o"
         else if Str.contains "video/" s then "video-o"
         else if Str.contains "image/" s then "image-o"
         else match List.find (fun e => String.eqb (fst e) (Str.replace "application/" "" s))
                              cssTypesApp with
              | Some (_, icon) => icon ++ "-o"
              | None => "file"
              end)), st)).
Proof.
  intros H. split.
  - intros ->. unfold fileType. now rewrite (run_bind_return _ _ _ _ _ H).
  - intros s ->. unfold fileType. rewrite (run_bind_return _ _ _ _ _ H).
    cbn [strict_eq]. rewrite bool_decide_eq_false_2 by discriminate.
    rewrite run_bind.
    run. rewrite found_indexOf. destruct (Str.contains "audio/" s); [reflexivity|].
    run. rewrite found_indexOf. destruct (Str.contains "video/" s); [reflexivity|].
    run. rewrite found_indexOf. destruct (Str.contains "image/" s); [reflexivity|].
    rewrite (run_bind_return _ _ _ _ _ H). run.
    rewrite lookup_icon_find.
    destruct (List.find _ cssTypesApp) as [[k icon]|]; reflexivity.
Qed.

End FileType.

(** ** [ifeq] and [ifnoteq] *)

Section Blocks.

Context {C : Collaborators}.

Lemma own_prop_not_nullish st v k x : own_prop st v k = Some x -> is_nullish v = false.
Proof. destruct v; simpl; congruence. Qed.

(** Calling a property that holds a template function. *)
Lemma run_call_fun st recv name f args builtin :
  own_prop st recv name = Some (VFun f) ->
  call_method recv name args builtin st =
  (call_fun f recv args st, log_call (Call f recv args) st).
Proof.
  intros H. unfold call_method.
  now rewrite (own_prop_not_nullish _ _ _ _ H), H.
Qed.


End Blocks.

(** ** [cdnAsset] *)

Section CdnAsset.

Context {C : Collaborators}.

Lemma run_ret {A} (a : A) (st : state) : (mret a : M A) st = (Return a, st).
Proof. reflexivity. Qed.

Lemma run_lift_str (o : outcome string) (st : state) :
  lift_str o st = (outcome_map VStr o, st).
Proof. now destruct o. Qed.

Lemma ToBoolean_not_nullish v : ToBoolean v = true -> is_nullish v = false.
Proof. now destruct v. Qed.

(** The identifier [[product, '/', x, '.', type].join('')] for a truthy [x]. *)
Lemma join_identifier h (product type : string) (x : value) :
  ToBoolean x = true ->
  join h [VStr product; VStr "/"; x; VStr "."; VStr type] =
  product ++ "/" ++ ToString h x ++ "." ++ type.
Proof.
  intros Hx. unfold join, join_item. cbn [fmap list_fmap Str.concat is_nullish].
  rewrite (ToBoolean_not_nullish _ Hx).
  change (ToString h (VStr ?s)) with s.
  now rewrite StrFacts.app_empty_r.
Qed.

(** With explicit options, or with the options record as only argument. *)
Lemma run_options_omitted (opts context : value) (st : state) :
  ToBoolean opts = true ->
  options_omitted context opts st = (Return false, st).
Proof. intros H. unfold options_omitted. now rewrite H. Qed.

Lemma run_options_only (opts hash : value) (st : state) :
  own_prop st opts "hasOwnProperty" = None ->
  own_prop st opts "hash" = Some hash ->
  options_omitted opts VUndef st = (Return true, st).
Proof.
  intros Hown Hh. unfold options_omitted. cbn [ToBoolean].
  unfold hasOwnProperty, call_method.
  rewrite run_bind, (own_prop_not_nullish _ _ _ _ Hh), Hown, Hh.
  reflexivity.
Qed.

(** The body of [cdnAsset] once [options] is the options record. *)
Lemma run_cdnAsset_body (omitted : bool) (this context other opts hash : value)
    (product type : string) (env fetch path : value) (st : state) :
  ToBoolean opts = true ->
  options_omitted context other st = (Return omitted, st) ->
  (if omitted then context else other) = opts ->
  get_prop opts "hash" st = (Return hash, st) ->
  get_prop hash "product" st = (Return (VStr product), st) ->
  get_prop hash "type" st = (Return (VStr type), st) ->
  get_prop hash "env" st = (Return env, st) ->
  get_prop hash "fetch" st = (Return fetch, st) ->
  get_prop hash "path" st = (Return path, st) ->
  cdnAsset this context other st =
  if ToBoolean path then
    (outcome_map VStr
       (cloudinary_url (heap st)
          (VStr (product ++ "/" ++ ToString (heap st) path ++ "." ++ type))
          {[ "resource_type" := (if ToBoolean fetch then fetch else VStr "raw");
             "secure" := VBool true ]}), st)
  else
    (outcome_map
       (fun url =>
          VStr (Str.replace "v1"
                  ("v" ++ pretty (fst (randomNum 1000 100000000 (world st)))) url))
       (cloudinary_url (heap st)
          (VStr (product ++ "/"
                   ++ ToString (heap st) (if ToBoolean env then env else VStr "production")
                   ++ "." ++ type))
          {[ "resource_type" := (if ToBoolean fetch then fetch else VStr "raw");
             "secure" := VBool true ]}),
     set_world (snd (randomNum 1000 100000000 (world st))) st).
Proof.
  intros Ht Hom Hopts Hh Hp Hty He Hf Hpa.
  unfold cdnAsset. rewrite (run_bind_return _ _ _ _ _ Hom).
  assert ((if omitted then (this_object this, context) else (context, other)).2 = opts) as Hsnd
    by (now destruct omitted).
  destruct (if omitted then (this_object this, context) else (context, other)) as [ctx o].
  simpl in Hsnd. subst o. rewrite Ht.
  repeat first [ rewrite (run_bind_return _ _ _ _ _ Hh)
               | rewrite (run_bind_return _ _ _ _ _ He)
               | rewrite (run_bind_return _ _ _ _ _ Hf) ].
  assert ((if ToBoolean fetch
           then get_prop opts "hash" ≫= fun hash0 : value => get_prop hash0 "fetch"
           else mret (VStr "raw")) st
          = (Return (if ToBoolean fetch then fetch else VStr "raw"), st)) as Hfetch.
  { destruct (ToBoolean fetch); [|reflexivity].
    now rewrite (run_bind_return _ _ _ _ _ Hh). }
  rewrite (run_bind_return _ _ _ _ _ Hfetch).
  rewrite (run_bind_return _ _ _ _ _ Hh), (run_bind_return _ _ _ _ _ Hpa).
  destruct (ToBoolean path) eqn:Epath.
  - repeat first [ rewrite (run_bind_return _ _ _ _ _ Hh)
                 | rewrite (run_bind_return _ _ _ _ _ Hp)
                 | rewrite (run_bind_return _ _ _ _ _ Hpa)
                 | rewrite (run_bind_return _ _ _ _ _ Hty) ].
    rewrite run_bind. change (get_state st) with (Return st, st). cbv beta iota.
    now rewrite run_lift_str, join_identifier.
  - repeat first [ rewrite (run_bind_return _ _ _ _ _ Hh)
                 | rewrite (run_bind_return _ _ _ _ _ Hp)
                 | rewrite (run_bind_return _ _ _ _ _ Hty) ].
    rewrite run_bind. change (get_state st) with (Return st, st). cbv beta iota.
    destruct (randomNum 1000 100000000 (world st)) as [random w] eqn:Er.
    rewrite run_bind. unfold put_state at 1. cbv beta iota.
    rewrite run_bind, run_lift_str.
    cbn [heap set_world fst snd].
    rewrite join_identifier by (now destruct (ToBoolean env) eqn:E).
    replace (if negb (ToBoolean env) then VStr "production" else env)
      with (if ToBoolean env then env else VStr "production")
      by (now destruct (ToBoolean env)).
    destruct (cloudinary_url _ _ _) as [url|e]; [|reflexivity].
    cbn [outcome_map]. now rewrite run_replace.
Qed.

(** C3, amended.  For every options record whose [product] and [type] are
    strings, passed as [options] or as the only argument: the resource type
    is [fetch], or ['raw'] when [fetch] is absent or falsy; when [path] is
    truthy the URL is built for [product/path.type] and returned as the
    URL builder gives it, no random number being drawn; when [path] is
    absent or falsy (the empty string included) the URL is built for
    [product/env.type], [env] being ['production'] when absent or falsy,
    an integer is drawn from 1000..100000000, and the first [v1] of the URL
    becomes [v] followed by that integer. *)
Theorem cdnAsset_spec (this context opts hash : value) (product type : string)
    (env fetch path : value) (st : state) :
  randomNum_in_range ->
  ToBoolean opts = true ->
  own_prop st opts "hasOwnProperty" = None ->
  own_prop st opts "hash" = Some hash ->
  get_prop hash "product" st = (Return (VStr product), st) ->
  get_prop hash "type" st = (Return (VStr type), st) ->
  get_prop hash "env" st = (Return env, st) ->
  get_prop hash "fetch" st = (Return fetch, st) ->
  get_prop hash "path" st = (Return path, st) ->
  let resource : gmap string value :=
    {[ "resource_type" := (if ToBoolean fetch then fetch else VStr "raw");
       "secure" := VBool true ]} in
  let random := fst (randomNum 1000 100000000 (world st)) in
  let result :=
    if ToBoolean path then
      (outcome_map VStr
         (cloudinary_url (heap st)
            (VStr (product ++ "/" ++ ToString (heap st) path ++ "." ++ type)) resource),
       st)
    else
      (outcome_map (fun url => VStr (Str.replace "v1" ("v" ++ pretty random) url))
         (cloudinary_url (heap st)
            (VStr (product ++ "/"
                     ++ ToString (heap st) (if ToBoolean env then env else VStr "production")
                     ++ "." ++ type)) resource),
       set_world (snd (randomNum 1000 100000000 (world st))) st) in
  cdnAsset this context opts st = result /\
  cdnAsset this opts VUndef st = result /\
  (1000 <= random <= 100000000)%Z.
Proof.
  intros Hrange Ht Hown Hhash Hp Hty He Hf Hpa resource random result.
  assert (get_prop opts "hash" st = (Return hash, st)) as Hh.
  { unfold get_prop. now rewrite (own_prop_not_nullish _ _ _ _ Hhash), Hhash. }
  split; [|split].
  - eapply (run_cdnAsset_body false); eauto using run_options_omitted.
  - eapply (run_cdnAsset_body true); eauto using run_options_only.
  - apply Hrange. lia.
Qed.

End CdnAsset.

(** ** [img] *)

Section Img.

Context {C : Collaborators}.

(** Without a file name, [img] evaluates [hbs.SafeString('')], a plain call
    of the constructor: nothing is constructed, the helper returns
    [undefined] and the text lands in [hbs.string]. *)
Lemma run_img_without_filename (image filename : value) (st : state) :
  get_prop image "filename" st = (Return filename, st) ->
  loose_eq (heap st) filename VNull = true ->
  img image st =
  (Return VUndef, set_hbs_own (<[ "string" := VStr "" ]> (hbs_own st)) st).
Proof.
  intros Hf Hnull. unfold img. rewrite (run_bind_return _ _ _ _ _ Hf).
  rewrite run_bind. change (get_state st) with (Return st, st). cbv beta iota.
  now rewrite Hnull.
Qed.

(** Reading a property other than [path] or [filename] after [img] has
    assigned the globals [path] and [filename]: only a read of the global
    object's properties of those names could differ. *)
Lemma get_prop_set_globals (v : value) (k : string) (g : gmap string value) (st : state) x :
  get_prop v k st = (Return x, st) ->
  v <> VGlobal ->
  get_prop v k (set_globals g st) = (Return x, set_globals g st).
Proof.
  unfold get_prop. destruct (is_nullish v); [discriminate|].
  intros [= <-] Hv. destruct v; try reflexivity. congruence.
Qed.

(** With a file name, [img] builds the tag from the escaped path, with its
    first [./public/] removed, and the escaped file name, wraps it in a
    new SafeString, and leaves [path] and [filename] behind as globals. *)
Lemma run_img_with_filename (image filename p : value) (st : state) :
  image <> VGlobal ->
  get_prop image "filename" st = (Return filename, st) ->
  loose_eq (heap st) filename VNull = false ->
  get_prop image "path" st = (Return p, st) ->
  let path := Str.replace "./public/" "" (escapeExpression (heap st) p) in
  let name := escapeExpression (heap st) filename in
  let l := fresh (dom (heap st)) in
  let tag := "<img src='" ++ path ++ "/" ++ name ++ "' alt='" ++ name ++ "'>" in
  img image st =
  (Return (VRef l),
   set_heap (<[ l := Obj SafeString {[ "string" := VStr tag ]} ]> (heap st))
     (set_globals (<[ "filename" := VStr name ]> (<[ "path" := VStr path ]> (globals st))) st)).
Proof.
  intros Hg Hf Hnull Hp path name l tag. unfold img.
  rewrite (run_bind_return _ _ _ _ _ Hf).
  rewrite run_bind. change (get_state st) with (Return st, st). cbv beta iota.
  rewrite Hnull, (run_bind_return _ _ _ _ _ Hp).
  rewrite run_bind, run_replace. cbv beta iota.
  rewrite run_bind. unfold set_global at 1, set_prop at 1. cbv beta iota.
  rewrite (run_bind_return _ _ _ _ _ (get_prop_set_globals _ _ _ _ _ Hf Hg)).
  rewrite run_bind. unfold set_global at 1, set_prop at 1. cbv beta iota.
  cbn [globals set_globals heap hbs_own registry world calls].
  unfold get_global, get_prop. rewrite !run_bind. cbn [is_nullish own_prop globals].
  cbv beta iota. rewrite !run_bind. cbv beta iota. cbn [globals set_globals].
  rewrite lookup_insert_eq, lookup_insert_ne, lookup_insert_eq by discriminate.
  cbn [default from_option id].
  unfold new_SafeString. cbn [heap set_globals set_heap globals hbs_own registry world calls].
  fold l. fold path. fold name.
  rewrite !js_add_strings. subst tag. rewrite <- !StrFacts.app_assoc. reflexivity.
Qed.

(** A path that begins with [./public/] and needs no escaping loses that
    prefix in the tag. *)
Lemma img_strips_prefix (rest : string) :
  Str.replace "./public/" "" ("./public/" ++ rest) = rest.
Proof. apply (StrFacts.replace_prefix "./public/" "" rest). Qed.

End Img.

(** ** The other helpers *)

Section Others.

Context {C : Collaborators}.

(** [incIndex(0)] is [1] and [incIndex("4")] is [5]. *)
Lemma incIndex_examples (st : state) :
  incIndex (VNum (Int 0)) st = (Return (VNum (Int 1)), st) /\
  incIndex (VStr "4") st = (Return (VNum (Int 5)), st).
Proof. split; reflexivity. Qed.

(** [removePara("<p>Hello</p>")] is ["Hello"], and [removePara] of a text
    without a paragraph is [undefined]. *)
Lemma removePara_examples (st : state) :
  removePara (VStr "<p>Hello</p>") st = (Return (VStr "Hello"), st) /\
  removePara (VStr "no paragraph") st = (Return VUndef, st).
Proof. split; reflexivity. Qed.

(** [emailFormat] replaces the first [@] only. *)
Lemma emailFormat_first_at (a b : string) (st : state) :
  Str.find "@" (a ++ "@" ++ b) 0 = Some (String.length a) ->
  emailFormat (VStr (a ++ "@" ++ b)) st = (Return (VStr (a ++ " at " ++ b)), st).
Proof.
  intros H. unfold emailFormat. rewrite run_replace.
  now rewrite (StrFacts.replace_at _ _ _ _ H).
Qed.

Lemma filter_forallb (p : ascii -> bool) (s : string) :
  Str.forallb p (Str.filter p s) = true.
Proof.
  induction s as [|c s IH]; simpl; [reflexivity|].
  destruct (p c) eqn:E; simpl; [now rewrite E|assumption].
Qed.


(** [date] given its options: the relative phrasing when [timeago] is
    truthy, else the format asked for, ['MMM Do, YYYY'] by default; a
    [null] context is passed on as [undefined]. *)
Lemma date_spec (this context options hash fmt timeago : value) (st : state) :
  ToBoolean options = true ->
  get_prop options "hash" st = (Return hash, st) ->
  get_prop hash "format" st = (Return fmt, st) ->
  get_prop hash "timeago" st = (Return timeago, st) ->
  date this context options st =
  (outcome_map VStr
     (if ToBoolean timeago
      then moment_fromNow (world st) (heap st) (null_to_undefined context)
      else moment_format (world st) (heap st) (null_to_undefined context)
             (if ToBoolean fmt then fmt else VStr "MMM Do, YYYY")), st).
Proof.
  intros Ht Hh Hf Hta. unfold date.
  rewrite (run_bind_return _ _ _ _ _ (run_options_omitted _ _ _ Ht)).
  rewrite run_bind, run_ret. cbv beta iota.
  rewrite (run_bind_return _ _ _ _ _ Hh), (run_bind_return _ _ _ _ _ Hf).
  rewrite (run_bind_return _ _ _ _ _ Hh), (run_bind_return _ _ _ _ _ Hta).
  rewrite run_bind. change (get_state st) with (Return st, st). cbv beta iota.
  destruct (ToBoolean timeago); apply run_lift_str.
Qed.

(** [link] escapes both arguments and wraps the anchor in a new
    SafeString. *)
Lemma link_spec (text url : value) (st : state) :
  link text url st =
  (Return (VRef (fresh (dom (heap st)))),
   set_heap
     (<[ fresh (dom (heap st)) :=
           Obj SafeString
             {[ "string" := VStr ("<a href='" ++ escapeExpression (heap st) url ++ "'>"
                                    ++ escapeExpression (heap st) text ++ "</a>") ]} ]>
        (heap st)) st).
Proof.
  unfold link. rewrite run_bind. change (get_state st) with (Return st, st).
  cbv beta iota zeta. unfold new_SafeString. rewrite !js_add_strings.
  now rewrite !StrFacts.app_assoc.
Qed.

End Others.

(** ** The registry as a whole *)

Section Wp.
Context {C : Collaborators}.

Lemma wp_bind {A B} (m : M A) (k : A -> M B) Q st :
  wp m (fun o st' => match o with
                     | Return a => wp (k a) Q st'
                     | Throw e => Q (Throw e) st'
                     end) st ->
  wp (m ≫= k) Q st.
Proof. unfold wp. rewrite run_bind. now destruct (m st) as [[a|e] st']. Qed.

Lemma wp_ret {A} (a : A) (Q : outcome A -> state -> Prop) st :
  Q (Return a) st -> wp (mret a) Q st.
Proof. exact id. Qed.

Lemma wp_throw {A} e (Q : outcome A -> state -> Prop) st :
  Q (Throw e) st -> wp (throw e) Q st.
Proof. exact id. Qed.

Lemma wp_get_state (Q : outcome state -> state -> Prop) st :
  Q (Return st) st -> wp get_state Q st.
Proof. exact id. Qed.

Lemma wp_put_state s (Q : outcome unit -> state -> Prop) st :
  Q (Return tt) s -> wp (put_state s) Q st.
Proof. exact id. Qed.

Lemma wp_get_prop v k (Q : outcome value -> state -> Prop) st :
  Q (Throw TypeError) st -> (forall x, Q (Return x) st) -> wp (get_prop v k) Q st.
Proof. intros Ht Hr. unfold wp, get_prop. destruct (is_nullish v); cbn; auto. Qed.

Lemma wp_set_global k x (Q : outcome unit -> state -> Prop) st :
  Q (Return tt) (set_globals (<[k := x]> (globals st)) st) -> wp (set_global k x) Q st.
Proof. exact id. Qed.

Lemma wp_set_prop v k x (Q : outcome unit -> state -> Prop) st :
  Q (Throw TypeError) st ->
  Q (Return tt) st ->
  Q (Return tt) (set_globals (<[k := x]> (globals st)) st) ->
  (forall l o, heap st !! l = Some o ->
     Q (Return tt) (set_heap (<[l := Obj (cls o) (<[k := x]> (props o))]> (heap st)) st)) ->
  wp (set_prop v k x) Q st.
Proof.
  intros Ht Hs Hg Hh. unfold wp, set_prop. destruct v; cbn; auto.
  destruct (heap st !! l) eqn:E; cbn; auto.
Qed.

Lemma wp_lift_str o (Q : outcome value -> state -> Prop) st :
  (forall e, Q (Throw e) st) -> (forall s, Q (Return (VStr s)) st) -> wp (lift_str o) Q st.
Proof. intros He Hs. unfold wp. destruct o; cbn; auto. Qed.

Lemma wp_call_method_string s name args builtin (Q : outcome value -> state -> Prop) st :
  String.eqb name "length" = false ->
  fst (Js.read_digits Js.digit 10 name None) = None ->
  wp builtin Q st ->
  wp (call_method (VStr s) name args builtin) Q st.
Proof. intros Hk Hd H. unfold wp. now rewrite call_method_string. Qed.

Lemma wp_stringified o (Q : outcome value -> state -> Prop) st :
  (forall e, Q (Throw e) st) -> Q (Return VUndef) st -> (forall s, Q (Return (VStr s)) st) ->
  wp (stringified o) Q st.
Proof. intros He Hu Hs. unfold wp. destruct o as [[s|]|e]; cbn; auto. Qed.

Lemma wp_call_method recv name args builtin (Q : outcome value -> state -> Prop) st :
  Q (Throw TypeError) st ->
  (forall f o, external_outcome o -> Q o (log_call (Call f recv args) st)) ->
  wp builtin Q st ->
  wp (call_method recv name args builtin) Q st.
Proof.
  intros Ht He Hb. unfold wp, call_method. destruct (is_nullish recv); cbn; auto.
  destruct (own_prop st recv name) as [[]|]; cbn; auto.
  unfold call_external. cbn [fst snd]. apply He.
  destruct (call_fun f recv args st) eqn:E; simpl; auto. now exists f, recv, args, st.
Qed.

Lemma wp_string_method recv body (Q : outcome value -> state -> Prop) st :
  Q (Throw TypeError) st -> (forall s, Q (Return (body s)) st) ->
  wp (string_method recv body) Q st.
Proof. intros Ht Hs. unfold wp, string_method. destruct recv; cbn; auto. Qed.

Lemma wp_new_SafeString x (Q : outcome value -> state -> Prop) st :
  Q (Return (VRef (fresh (dom (heap st)))))
    (set_heap (<[fresh (dom (heap st)) := Obj SafeString {[ "string" := x ]}]> (heap st)) st) ->
  wp (new_SafeString x) Q st.
Proof. exact id. Qed.

Lemma wp_call_SafeString x (Q : outcome value -> state -> Prop) st :
  Q (Return VUndef) (set_hbs_own (<[ "string" := x ]> (hbs_own st)) st) ->
  wp (call_SafeString x) Q st.
Proof. exact id. Qed.

Lemma js_add_kind h a b : (exists s, js_add h a b = VStr s) \/ (exists n, js_add h a b = VNum n).
Proof. unfold js_add. destruct (ToPrimitive h a), (ToPrimitive h b); eauto. Qed.

Lemma js_add_numbers h a b : js_add h (VNum a) (VNum b) = VNum (Js.num_add a b).
Proof. reflexivity. Qed.

Lemma js_add_string_r h a s : exists t, js_add h a (VStr s) = VStr t.
Proof. unfold js_add. cbn [ToPrimitive]. destruct (ToPrimitive h a); eauto. Qed.

Lemma js_add_string_l h s b : exists t, js_add h (VStr s) b = VStr t.
Proof. unfold js_add. cbn [ToPrimitive]. eauto. Qed.

Ltac wp_builtin :=
  lazymatch goal with
  | |- wp (string_method (VStr ?s) ?body) ?Q ?st => change (Q (Return (body s)) st)
  | |- wp (string_method _ _) _ _ => apply wp_string_method; [ | intros ? ]
  | |- wp (fun st0 => string_method ?r (@?body st0) st0) ?Q ?st =>
      change (wp (string_method r (body st)) Q st); wp_builtin
  | |- wp (fun st0 => (Return (@?v st0), st0)) ?Q ?st => change (Q (Return (v st)) st)
  | |- _ => idtac
  end.

Ltac wp_method :=
  lazymatch goal with
  | |- wp (call_method (VStr _) _ _ _) _ _ =>
      apply wp_call_method_string; [ reflexivity | reflexivity | wp_builtin ]
  | |- _ => apply wp_call_method; [ | intros ? ? ? | wp_builtin ]
  end.

Ltac wp_step :=
  cbv beta iota;
  lazymatch goal with
  | |- wp (_ ≫= _) _ _ => apply wp_bind
  | |- wp (mret _) _ _ => apply wp_ret
  | |- wp (throw _) _ _ => apply wp_throw
  | |- wp not_a_function _ _ => apply wp_throw
  | |- wp get_state _ _ => apply wp_get_state
  | |- wp (put_state _) _ _ => apply wp_put_state
  | |- wp (get_prop _ _) _ _ => apply wp_get_prop; [ | intros ? ]
  | |- wp (get_global _) _ _ => apply wp_get_prop; [ | intros ? ]
  | |- wp (set_global _ _) _ _ => apply wp_set_global
  | |- wp (set_prop _ _ _) _ _ => apply wp_set_prop; [ | | | intros ? ? ? ]
  | |- wp (lift_str _) _ _ => apply wp_lift_str; [ intros ? | intros ? ]
  | |- wp (stringified _) _ _ => apply wp_stringified; [ intros ? | | intros ? ]
  | |- wp (new_SafeString _) _ _ => apply wp_new_SafeString
  | |- wp (call_SafeString _) _ _ => apply wp_call_SafeString
  | |- wp (call_method _ _ _ _) _ _ => wp_method
  | |- wp (hasOwnProperty _ _) _ _ => unfold hasOwnProperty; wp_method
  | |- wp (m_concat _ _) _ _ => unfold m_concat; wp_method
  | |- wp (m_replace _ _ _) _ _ => unfold m_replace; wp_method
  | |- wp (m_replace_spaces _) _ _ => unfold m_replace_spaces; wp_method
  | |- wp (m_remove_special _) _ _ => unfold m_remove_special; wp_method
  | |- wp (m_indexOf _ _) _ _ => unfold m_indexOf; wp_method
  | |- wp (m_toLowerCase _) _ _ => unfold m_toLowerCase; wp_method
  | |- wp (m_toUpperCase _) _ _ => unfold m_toUpperCase; wp_method
  | |- wp (m_charAt _ _) _ _ => unfold m_charAt; wp_method
  | |- wp (m_slice _ _) _ _ => unfold m_slice; wp_method
  | |- wp (m_substring _ _ _) _ _ => unfold m_substring; wp_method
  | |- wp (options_omitted _ _) _ _ => unfold options_omitted
  | |- wp (if ?b then _ else _) _ _ => destruct b
  | |- wp (let '(_, _) := ?p in _) _ _ => destruct p
  | |- wp (match ?x with _ => _ end) _ _ => destruct x
  | |- match ?o with Return _ => _ | Throw _ => _ end => destruct o
  end.

Ltac kind_try k tac := solve [ exists k; split; [ set_solver | cbn; tac ] ].

Ltac kind_leaf :=
  rewrite ?js_add_strings, ?js_add_numbers;
  lazymatch goal with
  | |- True => exact I
  | |- context [js_add ?h ?a (VStr ?s)] => destruct (js_add_string_r h a s) as [? ->]
  | |- context [js_add ?h ?a ?b] => destruct (js_add_kind h a b) as [[? ->]|[? ->]]
  | |- _ => idtac
  end;
  first [ exact I
        | kind_try KString ltac:(eauto)
        | kind_try KNumber ltac:(eauto)
        | kind_try KUndefined ltac:(reflexivity)
        | kind_try KExternal ltac:(assumption)
        | kind_try KArgument ltac:(reflexivity)
        | kind_try KSafeString
            ltac:(do 2 eexists; split; [ reflexivity | ];
                  split; [ apply not_elem_of_dom, is_fresh | rewrite ?js_add_strings; apply lookup_insert_eq ]) ].

Ltac footprint_leaf :=
  lazymatch goal with
  | |- _ /\ _ => split; footprint_leaf
  | |- _ \/ _ => first [ solve [ left; footprint_leaf ] | solve [ right; footprint_leaf ] ]
  | |- exists _, _ => eexists; footprint_leaf
  | |- safe_string_added _ _ =>
      rewrite ?js_add_strings;
      try lazymatch goal with
          | |- context [js_add ?h ?a (VStr ?s)] => destruct (js_add_string_r h a s) as [? ->]
          end;
      first [ left; reflexivity
            | right; do 2 eexists; split; [ apply not_elem_of_dom, is_fresh | reflexivity ] ]
  | |- _ !! _ = Some _ => cbn in *; eassumption
  | |- _ = _ => reflexivity
  end.

Ltac leaf :=
  lazymatch goal with
  | |- effects _ _ _ ?o _ => try (is_var o; destruct o)
  end;
  unfold effects; cbn [footprint returns];
  (split; [ footprint_leaf | kind_leaf ]).

Ltac helper_effects := repeat wp_step; try leaf.

Lemma run_invoke (hp : helper) (this : value) (args : list value) (st : state) :
  effects hp st args (invoke hp this args st).1 (invoke hp this args st).2.
Proof.
  change (wp (invoke hp this args) (effects hp st args) st).
  destruct hp; cbn [invoke].
  - unfold ifeq. helper_effects.
  - unfold ifnoteq. helper_effects.
  - unfold date. helper_effects.
  - unfold cloudinaryUrl. helper_effects.
  - unfold cloudinaryImg, cloudinaryUrl. helper_effects.
  - unfold cdnAsset. helper_effects.
  - unfold jsonPrint. helper_effects.
  - unfold jsonStr. helper_effects.
  - unfold link. helper_effects.
  - unfold img. helper_effects.
  - unfold incIndex. helper_effects.
  - unfold fileType. helper_effects.
  - unfold trim. helper_effects.
  - unfold limit. helper_effects.
  - unfold cleanString. helper_effects.
  - unfold emailFormat. helper_effects.
  - unfold upperCase. helper_effects.
  - unfold lowerCase. helper_effects.
  - unfold pluralize. helper_effects.
  - unfold trimPluralize, pluralize, trim. helper_effects.
  - unfold secureUrl. destruct (arg args 0) eqn:E; simpl negb; cbv iota; helper_effects.
  - unfold removePara. helper_effects.
Qed.

(** When [cloudinaryUrl] is given its options, and [options.hash] is a
    record: unless [format] is ['svg'], the call leaves that record with
    [fetch_format = 'auto'], whatever else happens; with ['svg'] the heap
    is as before. *)
Lemma run_cloudinaryUrl_heap (this context options : value) (l : loc) (o : object)
    (st : state) :
  ToBoolean options = true ->
  own_prop st options "hash" = Some (VRef l) ->
  heap st !! l = Some o ->
  heap (cloudinaryUrl this context options st).2 =
  if strict_eq (default VUndef (props o !! "format")) (VStr "svg") then heap st
  else <[l := Obj (cls o) (<[ "fetch_format" := VStr "auto" ]> (props o))]> (heap st).
Proof.
  intros Ht Hhash Ho.
  assert (get_prop options "hash" st = (Return (VRef l), st)) as Hh.
  { unfold get_prop. now rewrite (own_prop_not_nullish _ _ _ _ Hhash), Hhash. }
  assert (get_prop (VRef l) "format" st
          = (Return (default VUndef (props o !! "format")), st)) as Hf.
  { unfold get_prop. cbn [is_nullish own_prop]. now rewrite Ho. }
  unfold cloudinaryUrl.
  rewrite (run_bind_return _ _ _ _ _ (run_options_omitted _ _ _ Ht)). cbv beta iota zeta.
  rewrite (run_bind_return _ _ _ _ _ Hh), (run_bind_return _ _ _ _ _ Hf).
  destruct (strict_eq (default VUndef (props o !! "format")) (VStr "svg")); cbn [negb].
  - rewrite run_bind, run_ret. cbv beta iota.
    match goal with
    | |- heap (?m st).2 = _ => change (wp m (fun _ st' => heap st' = heap st) st)
    end.
    repeat wp_step; reflexivity.
  - rewrite run_bind, (run_bind_return _ _ _ _ _ Hh).
    unfold set_prop at 1. rewrite Ho. cbv beta iota.
    match goal with
    | |- heap (?m ?st1).2 = ?h => change (wp m (fun _ st' => heap st' = h) st1)
    end.
    repeat wp_step; reflexivity.
Qed.


Ltac ambient_leaf :=
  cbv beta;
  cbn [registry world calls set_heap set_globals set_hbs_own set_world log_call];
  (split; [ reflexivity | split; [ first [ reflexivity | congruence ] | ] ]);
  first [ exists []; now rewrite app_nil_r
        | eexists; reflexivity
        | rewrite <- !app_assoc; eexists; reflexivity ].


End Wp.

(** ** [incIndex] and the lengths given to [limit] *)

Section Numbers.

Context {C : Collaborators}.

Lemma run_incIndex (v : value) (st : state) :
  incIndex v st = (Return (VNum (Js.num_add (parseInt (heap st) v) (Int 1))), st).
Proof. reflexivity. Qed.


(** [limit] on a string, whatever the length is. *)
Lemma run_limit_value (s : string) (length : value) (st : state) :
  limit (VStr s) length st =
  if js_le (heap st) (VNum (Int (Z.of_nat (String.length s)))) length
  then (Return (VStr s), st)
  else (Return (VStr (Str.substring 0 (end_index (heap st) (String.length s) length) s ++ "...")),
        st).
Proof.
  unfold limit. run. change (get_state st) with (Return st, st). cbv beta iota.
  destruct (js_le _ _ _); [reflexivity|].
  run. change (get_state st) with (Return st, st). reflexivity.
Qed.

(** [limit] on lengths other than a fitting integer.  Without a length
    the comparison fails and [substring(0, undefined)] is the whole
    string, so [limit(s)] is [s + "..."] for every [s]; with [NaN] or a
    negative length the result is just ["..."]; a length given as the
    decimal text of an integer acts as that integer.  For a length
    [n >= 0] the result never has more than [n + 3] characters. *)
Theorem limit_edge (s : string) (st : state) :
  limit (VStr s) VUndef st = (Return (VStr (s ++ "...")), st) /\
  limit (VStr s) (VNum NaN) st = (Return (VStr "..."), st) /\
  (forall n : Z, (n < 0)%Z -> limit (VStr s) (VNum (Int n)) st = (Return (VStr "..."), st)) /\
  (forall n : Z, limit (VStr s) (VStr (pretty n)) st = limit (VStr s) (VNum (Int n)) st) /\
  (forall (n : Z) (r : string),
     (0 <= n)%Z ->
     limit (VStr s) (VNum (Int n)) st = (Return (VStr r), st) ->
     (Z.of_nat (String.length r) <= n + 3)%Z).
Proof.
  split; [|split; [|split; [|split]]].
  - rewrite run_limit_value. cbn [js_le ToPrimitive prim_to_number Js.num_leb end_index].
    rewrite StrFacts.substring_from_0, Nat2Z.id. now rewrite StrFacts.take_all.
  - rewrite run_limit_value. reflexivity.
  - intros n Hn. rewrite run_limit. destruct (Z.leb_spec (Z.of_nat (String.length s)) n); [lia|].
    now destruct n.
  - intros n. rewrite !run_limit_value.
    unfold js_le, end_index, ToNumber. cbn [ToPrimitive prim_to_number].
    now rewrite NumFacts.StringToNumber_pretty.
  - intros n r Hn. rewrite run_limit.
    destruct (Z.leb_spec (Z.of_nat (String.length s)) n); intros [= <-]; [lia|].
    rewrite StrFacts.length_app, StrFacts.length_take. simpl String.length. lia.
Qed.

End Numbers.

(** ** [removePara] *)

Section Paragraph.

Context {C : Collaborators}.

Local Abbreviation no_terminator := (fun c : ascii => negb (line_terminator c)).

Lemma after_gt_cons (c : ascii) (s : string) :
  after_gt (String c s) = if Ascii.eqb c ">" then Some s else after_gt s.
Proof. destruct c as [[] [] [] [] [] [] [] []]; reflexivity. Qed.

Lemma open_tag_cons (c : ascii) (s : string) :
  Ascii.eqb c "<" = false -> open_tag (String c s) = None.
Proof. destruct c as [[] [] [] [] [] [] [] []]; (reflexivity || discriminate). Qed.

Lemma close_tag_cons (c : ascii) (s : string) :
  Ascii.eqb c "<" = false -> close_tag (String c s) = false.
Proof. destruct c as [[] [] [] [] [] [] [] []]; (reflexivity || discriminate). Qed.

Lemma after_gt_app (attrs t : string) :
  Str.mem ">" attrs = false -> after_gt (attrs ++ ">" ++ t) = Some t.
Proof.
  induction attrs as [|c a IH]; [reflexivity|].
  intros [Hc Ha]%StrFacts.mem_cons. rewrite StrFacts.app_cons, after_gt_cons, Hc. auto.
Qed.

Lemma body_eq (s : string) :
  body s =
  if close_tag s then Some EmptyString
  else match s with
       | String c s' => if line_terminator c then None else String c <$> body s'
       | EmptyString => None
       end.
Proof. now destruct s. Qed.

Lemma exec_paragraph_eq (s : string) :
  exec_paragraph s =
  match open_tag s ≫= body with
  | Some b => Some b
  | None =>
      match s with
      | String _ s' => exec_paragraph s'
      | EmptyString => None
      end
  end.
Proof. now destruct s. Qed.

(** The group runs up to the first closing tag that follows. *)
Lemma body_app (b t : string) :
  Str.mem "<" b = false ->
  Str.forallb no_terminator b = true ->
  body (b ++ t) = (fun g => b ++ g) <$> body t.
Proof.
  intros Hb Hl. induction b as [|c b IH].
  - rewrite StrFacts.app_nil. now destruct (body t).
  - apply StrFacts.mem_cons in Hb as [Hc Hb]. cbn [Str.forallb] in Hl.
    apply andb_true_iff in Hl as [Hn Hl]. apply negb_true_iff in Hn.
    rewrite StrFacts.app_cons, body_eq, close_tag_cons, Hn by done.
    rewrite IH by done. now destruct (body t).
Qed.

Lemma body_closed (t : string) : close_tag t = true -> body t = Some "".
Proof. intros H. now rewrite body_eq, H. Qed.

(** The expression is tried at each position from the left. *)
Lemma exec_paragraph_skip (pre s : string) :
  Str.mem "<" pre = false -> exec_paragraph (pre ++ s) = exec_paragraph s.
Proof.
  induction pre as [|c pre IH]; [reflexivity|].
  intros [Hc Hpre]%StrFacts.mem_cons.
  rewrite StrFacts.app_cons, exec_paragraph_eq, open_tag_cons by done.
  cbn [mbind option_bind]. auto.
Qed.

Lemma run_removePara (s : string) (st : state) :
  removePara (VStr s) st = (Return (from_option VStr VUndef (exec_paragraph s)), st).
Proof.
  unfold removePara. destruct s as [|c s]; [reflexivity|].
  cbn [ToBoolean]. rewrite run_bind. change (get_state st) with (Return st, st).
  cbv beta iota. change (ToString (heap st) (VStr ?x)) with x.
  now destruct (exec_paragraph _).
Qed.

Lemma body_prefix (s b : string) :
  body s = Some b -> exists t, s = b ++ t /\ close_tag t = true.
Proof.
  revert b. induction s as [|c s IH]; intros b; rewrite body_eq.
  - destruct (close_tag "") eqn:E; [|discriminate]. intros [= <-]. now exists "".
  - destruct (close_tag (String c s)) eqn:E.
    + intros [= <-]. now exists (String c s).
    + destruct (line_terminator c); [discriminate|].
      destruct (body s) as [b'|]; [|discriminate]. intros [= <-].
      destruct (IH b' eq_refl) as (t & -> & Ht). now exists t.
Qed.

Lemma body_no_terminator (s b : string) :
  body s = Some b -> Str.forallb no_terminator b = true.
Proof.
  revert b. induction s as [|c s IH]; intros b; rewrite body_eq.
  - destruct (close_tag ""); [|discriminate]. now intros [= <-].
  - destruct (close_tag (String c s)); [now intros [= <-]|].
    destruct (line_terminator c) eqn:E; [discriminate|].
    destruct (body s) as [b'|]; [|discriminate]. intros [= <-].
    cbn [Str.forallb]. now rewrite E, (IH b').
Qed.

Lemma close_tag_literal (t : string) : close_tag ("</p>" ++ t) = true.
Proof. reflexivity. Qed.

(** The group is the shortest possible: no closing tag lies inside it. *)
Lemma body_shortest (s b : string) :
  body s = Some b -> Str.contains "</p>" b = false.
Proof.
  revert b. induction s as [|c s IH]; intros b; rewrite body_eq.
  - destruct (close_tag ""); [|discriminate]. now intros [= <-].
  - destruct (close_tag (String c s)) eqn:E; [now intros [= <-]|].
    destruct (line_terminator c); [discriminate|].
    destruct (body s) as [b'|] eqn:Eb; [|discriminate]. intros [= <-].
    apply StrFacts.contains_false. rewrite StrFacts.find_eq.
    destruct (String.prefix "</p>" (String c b')) eqn:Ep.
    + apply StrFacts.prefix_split in Ep.
      destruct (body_prefix _ _ Eb) as (t & Hs & _).
      assert (String c s = "</p>" ++ (Str.drop 4 (String c b') ++ t)) as Hcs.
      { rewrite Hs, <- StrFacts.app_cons, Ep at 1. now rewrite StrFacts.app_assoc. }
      rewrite Hcs, close_tag_literal in E. discriminate.
    + apply (StrFacts.find_none_shift _ _ 0), StrFacts.contains_false, IH, eq_refl.
Qed.

Lemma after_gt_suffix (s t : string) : after_gt s = Some t -> exists u, s = u ++ t.
Proof.
  induction s as [|c s IH]; [discriminate|]. rewrite after_gt_cons.
  destruct (Ascii.eqb c ">").
  - intros [= ->]. now exists (String c "").
  - intros (u & ->)%IH. now exists (String c u).
Qed.

Lemma skip_s_suffix (s : string) : exists u, s = u ++ skip_s s.
Proof.
  induction s as [|c s [u IH]]; [now exists ""|].
  destruct (Ascii.eqb_spec c "s") as [->|Hc].
  - exists (String "s" u). cbn [skip_s]. now rewrite StrFacts.app_cons, <- IH.
  - exists "". destruct c as [[] [] [] [] [] [] [] []]; (reflexivity || congruence).
Qed.

Lemma open_tag_suffix (s t : string) : open_tag s = Some t -> exists u, s = u ++ t.
Proof.
  destruct s as [|c s]; [discriminate|].
  destruct (Ascii.eqb_spec c "<") as [->|Hc];
    [|rewrite open_tag_cons by (now apply Ascii.eqb_neq); discriminate].
  cbn [open_tag]. destruct (skip_s_suffix s) as [u Hu].
  destruct (skip_s s) as [|d s2]; [discriminate|].
  destruct (Ascii.eqb_spec d "p") as [->|Hd];
    [|destruct d as [[] [] [] [] [] [] [] []]; (discriminate || congruence)].
  intros (w & ->)%after_gt_suffix. exists (String "<" (u ++ String "p" w)).
  rewrite Hu. now rewrite StrFacts.app_cons, StrFacts.app_assoc, StrFacts.app_cons.
Qed.

Lemma exec_paragraph_found (s b : string) :
  exec_paragraph s = Some b ->
  exists pre post,
    s = pre ++ b ++ post /\ close_tag post = true /\
    Str.contains "</p>" b = false /\ Str.forallb no_terminator b = true.
Proof.
  induction s as [|c s IH]; rewrite exec_paragraph_eq.
  - change (open_tag "" ≫= body) with (@None string). discriminate.
  - destruct (open_tag (String c s)) as [t|] eqn:Eo; cbn [mbind option_bind].
    + destruct (body t) as [b'|] eqn:Eb.
      * intros [= <-]. destruct (open_tag_suffix _ _ Eo) as [u Hu].
        destruct (body_prefix _ _ Eb) as (post & Ht & Hpost).
        exists u, post. rewrite Hu, Ht.
        split; [reflexivity|]. eauto using body_shortest, body_no_terminator.
      * intros (pre & post & -> & H)%IH. now exists (String c pre), post.
    + intros (pre & post & -> & H)%IH. now exists (String c pre), post.
Qed.

(** What [removePara] finds, whatever it is given.  A falsy argument
    and a text without [<] give [undefined].  Otherwise the result is
    [undefined] or a piece of the text that is followed by a closing tag
    [</p>] (written with any number of letters [s] after [<] and [/]),
    that holds no [</p>] itself, the match being the shortest one, and
    that holds no line break. *)
Theorem removePara_shortest (v : value) (st : state) :
  (ToBoolean v = false -> removePara v st = (Return VUndef, st)) /\
  (forall s : string, Str.mem "<" s = false -> removePara (VStr s) st = (Return VUndef, st)) /\
  (removePara v st = (Return VUndef, st) \/
   exists pre b post : string,
     ToString (heap st) v = pre ++ b ++ post /\
     close_tag post = true /\
     removePara v st = (Return (VStr b), st) /\
     Str.contains "</p>" b = false /\
     Str.forallb (fun c => negb (line_terminator c)) b = true).
Proof.
  split; [|split].
  - intros H. unfold removePara. now rewrite H.
  - intros s Hs. rewrite run_removePara.
    now rewrite <- (StrFacts.app_empty_r s), exec_paragraph_skip.
  - unfold removePara. destruct (ToBoolean v); [|now left].
    rewrite run_bind. change (get_state st) with (Return st, st). cbv beta iota.
    destruct (exec_paragraph _) as [b|] eqn:E; [|now left].
    right. apply exec_paragraph_found in E as (pre & post & E & H).
    exists pre, b, post. rewrite E. destruct H as (H1 & H2 & H3). now repeat split.
Qed.

(** The first paragraph of a text: when nothing before it holds [<], the
    opening tag is [<p], attributes without [>], and [>], and the content
    [b] holds neither [<] nor a line break, [removePara] returns [b],
    whatever follows the closing [</p>]. *)
Theorem removePara_spec (pre attrs b rest : string) (st : state) :
  Str.mem "<" pre = false ->
  Str.mem ">" attrs = false ->
  Str.mem "<" b = false ->
  Str.forallb (fun c => negb (line_terminator c)) b = true ->
  removePara (VStr (pre ++ "<p" ++ attrs ++ ">" ++ b ++ "</p>" ++ rest)) st
  = (Return (VStr b), st).
Proof.
  intros Hpre Hattrs Hb Hl. rewrite run_removePara, exec_paragraph_skip by done.
  rewrite exec_paragraph_eq.
  change (open_tag ("<p" ++ ?t)) with (after_gt t).
  rewrite after_gt_app by done. cbn [mbind option_bind].
  rewrite body_app, body_closed by done. cbn. now rewrite StrFacts.app_empty_r.
Qed.

(** The pattern is built from a string literal, in which [\s] is the
    letter [s]: tags written with letters [s] where white space was meant
    are accepted ([<ssp>b<s/ssp>] gives [b]), and a tag with a space after
    [<] or after [/] is not a paragraph tag ([< p>b</p>] and [<p>b</ p>]
    give [undefined]). *)
Theorem removePara_letter_s (b rest : string) (st : state) :
  Str.mem "<" b = false ->
  Str.forallb (fun c => negb (line_terminator c)) b = true ->
  removePara (VStr ("<ssp>" ++ b ++ "<s/ssp>" ++ rest)) st = (Return (VStr b), st) /\
  removePara (VStr ("< p>" ++ b ++ "</p>")) st = (Return VUndef, st) /\
  removePara (VStr ("<p>" ++ b ++ "</ p>")) st = (Return VUndef, st).
Proof.
  intros Hb Hl. rewrite !run_removePara. split; [|split].
  - rewrite exec_paragraph_eq.
    change (open_tag ("<ssp>" ++ ?t)) with (Some t). cbn [mbind option_bind].
    rewrite body_app, body_closed by done. cbn. now rewrite StrFacts.app_empty_r.
  - rewrite exec_paragraph_eq.
    change (open_tag ("< p>" ++ ?t)) with (@None string). cbn [mbind option_bind].
    change ("< p>" ++ ?t) with (String "<" ((" p>" ++ b) ++ "</p>")). cbv beta iota.
    rewrite exec_paragraph_skip; [reflexivity|].
    now rewrite StrFacts.mem_app, Hb.
  - rewrite exec_paragraph_eq.
    change (open_tag ("<p>" ++ ?t)) with (Some t). cbn [mbind option_bind].
    rewrite body_app by done.
    change (body "</ p>") with (@None string). cbn [fmap option_fmap option_map].
    change ("<p>" ++ ?t) with (String "<" (("p>" ++ b) ++ "</ p>")). cbv beta iota.
    rewrite exec_paragraph_skip; [reflexivity|].
    now rewrite StrFacts.mem_app, Hb.
Qed.

End Paragraph.

(** ** The two calling conventions *)

Section Conventions.

Context {C : Collaborators}.

(** Only a function or an object has a [hash] of its own, and those are
    truthy. *)
Lemma own_hash_truthy (st : state) (v x : value) :
  own_prop st v "hash" = Some x -> ToBoolean v = true.
Proof. destruct v; try discriminate; reflexivity. Qed.

Lemma run_get_prop (st : state) (v : value) (k : string) (x : value) :
  own_prop st v k = Some x -> get_prop v k st = (Return x, st).
Proof.
  intros H. unfold get_prop. now rewrite (own_prop_not_nullish _ _ _ _ H), H.
Qed.

Lemma run_get_prop_default (st : state) (v : value) (k : string) :
  is_nullish v = false ->
  get_prop v k st = (Return (default VUndef (own_prop st v k)), st).
Proof. intros H. unfold get_prop. now rewrite H. Qed.

Lemma this_object_not_nullish (this : value) : is_nullish (this_object this) = false.
Proof. now destruct this. Qed.

(** [cloudinaryUrl] reads its scope only when the options are omitted. *)
Lemma run_cloudinaryUrl_scope (this this' context options : value) (st : state) :
  ToBoolean options = true ->
  cloudinaryUrl this context options st = cloudinaryUrl this' context options st.
Proof.
  intros Ht. unfold cloudinaryUrl.
  now rewrite !(run_bind_return _ _ _ _ _ (run_options_omitted _ _ _ Ht)).
Qed.

Lemma run_cloudinaryUrl_options_only (this this' opts hash : value) (st : state) :
  own_prop st opts "hasOwnProperty" = None ->
  own_prop st opts "hash" = Some hash ->
  cloudinaryUrl this opts VUndef st = cloudinaryUrl this' (this_object this) opts st.
Proof.
  intros Hown Hhash. unfold cloudinaryUrl.
  rewrite (run_bind_return _ _ _ _ _ (run_options_only _ _ _ Hown Hhash)).
  now rewrite (run_bind_return _ _ _ _ _
                 (run_options_omitted _ _ _ (own_hash_truthy _ _ _ Hhash))).
Qed.


(** A call that passes no options, or falsy ones, and a context that is
    not an options record either.  When the context is [undefined] or
    [null] all three helpers throw a TypeError, at
    [context.hasOwnProperty].  Otherwise [date] and [cloudinaryUrl] throw
    a TypeError, at [options.hash.format], while [cdnAsset], which tests
    [if (options)], returns [undefined].  Nothing is changed. *)
Theorem without_options (this context options : value) (st : state) :
  ToBoolean options = false ->
  (is_nullish context = true ->
   date this context options st = (Throw TypeError, st) /\
   cloudinaryUrl this context options st = (Throw TypeError, st) /\
   cdnAsset this context options st = (Throw TypeError, st)) /\
  (is_nullish context = false ->
   own_prop st context "hasOwnProperty" = None ->
   own_prop st context "hash" = None ->
   date this context options st = (Throw TypeError, st) /\
   cloudinaryUrl this context options st = (Throw TypeError, st) /\
   cdnAsset this context options st = (Return VUndef, st)).
Proof.
  intros Ht. split.
  - intros Hn. unfold date, cloudinaryUrl, cdnAsset, options_omitted, hasOwnProperty,
      call_method. rewrite Ht, !run_bind, Hn. auto.
  - intros Hn Hown Hhash.
    assert (options_omitted context options st = (Return false, st)) as Hom.
    { unfold options_omitted, hasOwnProperty, call_method.
      now rewrite Ht, run_bind, Hn, Hown, Hhash. }
    unfold date, cloudinaryUrl, cdnAsset.
    rewrite !(run_bind_return _ _ _ _ _ Hom), Ht. cbv beta iota zeta.
    rewrite !run_bind, run_ret. cbv beta iota.
    destruct options as [| |[]|[|[|?|?]]|[|? ?]| | |]; try discriminate Ht;
      (split; [|split]); reflexivity.
Qed.

End Conventions.

(** ** [cloudinaryUrl] and [cloudinaryImg] *)

Section Cloudinary.

Context {C : Collaborators}.

(** Marking a record with [fetch_format] changes no other property of
    any value. *)
Lemma own_prop_marked (st : state) (l : loc) (o : object) (x v : value) (k : string) :
  heap st !! l = Some o ->
  k <> "fetch_format" ->
  own_prop (set_heap (<[l := Obj (cls o) (<[ "fetch_format" := x ]> (props o))]> (heap st)) st)
    v k
  = own_prop st v k.
Proof.
  intros Ho Hk. destruct v; try reflexivity. cbn [own_prop set_heap heap].
  destruct (decide (l0 = l)) as [->|Hl].
  - rewrite lookup_insert_eq, Ho. cbn. now rewrite lookup_insert_ne.
  - now rewrite lookup_insert_ne.
Qed.

Section Call.

Variables (this options : value) (l : loc) (o : object) (st : state).

Hypothesis options_given : ToBoolean options = true.
Hypothesis hash_record : own_prop st options "hash" = Some (VRef l).
Hypothesis hash_fields : heap st !! l = Some o.

Lemma own_prop_after (v : value) (k : string) :
  k <> "fetch_format" -> own_prop (with_auto_format st l o) v k = own_prop st v k.
Proof.
  intros Hk. unfold with_auto_format, auto_format.
  destruct (strict_eq _ _); [reflexivity|]. now apply own_prop_marked.
Qed.

Lemma get_prop_after (v : value) (k : string) :
  k <> "fetch_format" ->
  get_prop v k (with_auto_format st l o) = ((get_prop v k st).1, with_auto_format st l o).
Proof.
  intros Hk. unfold get_prop. destruct (is_nullish v); [reflexivity|].
  now rewrite own_prop_after.
Qed.

Lemma record_of_after : record_of (with_auto_format st l o) (VRef l) = auto_format o.
Proof.
  unfold with_auto_format, auto_format. cbn [record_of]. destruct (strict_eq _ _).
  - now rewrite hash_fields.
  - cbn [heap set_heap]. now rewrite lookup_insert_eq.
Qed.

Lemma get_hash_after :
  get_prop options "hash" (with_auto_format st l o) = (Return (VRef l), with_auto_format st l o).
Proof.
  rewrite get_prop_after by discriminate. now rewrite (run_get_prop _ _ _ _ hash_record).
Qed.

(** The first statements of [cloudinaryUrl], up to the marking of the
    hash; the rest runs in the state that leaves. *)
Lemma run_cloudinaryUrl_mark (context : value) :
  cloudinaryUrl this context options st =
  (public_id ← get_prop (null_to_undefined context) "public_id";
   if ToBoolean public_id then
     public_id' ← get_prop (null_to_undefined context) "public_id";
     format' ← get_prop (null_to_undefined context) "format";
     imageName ← m_concat public_id' [VStr "."; format'];
     hash' ← get_prop options "hash";
     st ← get_state;
     url ← lift_str (cloudinary_url (heap st) imageName (record_of st hash'));
     m_replace url "http" "https"
   else if strict_eq (VStr (typeof (null_to_undefined context))) (VStr "string") then
     hash' ← get_prop options "hash";
     st ← get_state;
     tag ← lift_str (cloudinary_image (heap st) (null_to_undefined context) (record_of st hash'));
     m_replace tag "http" "https"
   else mret VUndef) (with_auto_format st l o).
Proof.
  pose proof (run_get_prop _ _ _ _ hash_record) as Hh.
  assert (get_prop (VRef l) "format" st
          = (Return (default VUndef (props o !! "format")), st)) as Hf.
  { unfold get_prop. cbn [is_nullish own_prop]. now rewrite hash_fields. }
  unfold cloudinaryUrl.
  rewrite (run_bind_return _ _ _ _ _ (run_options_omitted _ _ _ options_given)).
  cbv beta iota zeta.
  rewrite (run_bind_return _ _ _ _ _ Hh), (run_bind_return _ _ _ _ _ Hf).
  unfold with_auto_format, auto_format.
  destruct (strict_eq (default VUndef (props o !! "format")) (VStr "svg")); cbn [negb].
  - now rewrite run_bind, run_ret.
  - rewrite run_bind, (run_bind_return _ _ _ _ _ Hh).
    unfold set_prop at 1. now rewrite hash_fields.
Qed.

Lemma run_cloudinaryUrl_descriptor (context : value) (pid : string) :
  own_prop st context "public_id" = Some (VStr pid) ->
  pid <> "" ->
  cloudinaryUrl this context options st =
  (outcome_map (fun url => VStr (Str.replace "http" "https" url))
     (cloudinary_url (heap (with_auto_format st l o))
        (VStr (pid ++ "." ++ ToString (heap (with_auto_format st l o))
                               (default VUndef (own_prop st context "format"))))
        (auto_format o)), with_auto_format st l o).
Proof.
  intros Hpid Hne. rewrite run_cloudinaryUrl_mark.
  assert (null_to_undefined context = context) as -> by (now destruct context).
  pose proof (own_prop_not_nullish _ _ _ _ Hpid) as Hn.
  set (st' := with_auto_format st l o).
  assert (get_prop context "public_id" st' = (Return (VStr pid), st')) as Hp.
  { subst st'. rewrite get_prop_after by discriminate.
    now rewrite (run_get_prop _ _ _ _ Hpid). }
  assert (get_prop context "format" st'
          = (Return (default VUndef (own_prop st context "format")), st')) as Hf.
  { subst st'. rewrite get_prop_after by discriminate. now rewrite run_get_prop_default. }
  rewrite (run_bind_return _ _ _ _ _ Hp).
  assert (ToBoolean (VStr pid) = true) as -> by (now destruct pid).
  rewrite (run_bind_return _ _ _ _ _ Hp), (run_bind_return _ _ _ _ _ Hf).
  rewrite run_bind, run_concat. cbv beta iota.
  subst st'. rewrite (run_bind_return _ _ _ _ _ get_hash_after).
  rewrite run_bind.
  change (get_state (with_auto_format st l o))
    with (Return (with_auto_format st l o), with_auto_format st l o).
  cbv beta iota.
  rewrite record_of_after, run_bind, run_lift_str.
  cbn [fmap list_fmap Str.concat].
  change (ToString (heap (with_auto_format st l o)) (VStr ".")) with ".".
  rewrite StrFacts.app_empty_r.
  destruct (cloudinary_url _ _ _) as [url|e]; [|reflexivity].
  cbn [outcome_map]. now rewrite run_replace.
Qed.

Lemma run_cloudinaryUrl_string (context : value) (s : string) :
  context = VStr s ->
  cloudinaryUrl this context options st =
  (outcome_map (fun tag => VStr (Str.replace "http" "https" tag))
     (cloudinary_image (heap (with_auto_format st l o)) (VStr s) (auto_format o)),
   with_auto_format st l o).
Proof.
  intros ->. rewrite run_cloudinaryUrl_mark.
  change (null_to_undefined (VStr s)) with (VStr s).
  rewrite run_bind, run_get_prop_default by reflexivity.
  rewrite own_prop_method by reflexivity. cbn [default from_option id ToBoolean].
  cbv beta iota. rewrite strict_eq_strings. cbn [typeof String.eqb Ascii.eqb Bool.eqb].
  cbv iota. rewrite (run_bind_return _ _ _ _ _ get_hash_after).
  rewrite run_bind.
  change (get_state (with_auto_format st l o))
    with (Return (with_auto_format st l o), with_auto_format st l o).
  cbv beta iota.
  rewrite record_of_after, run_bind, run_lift_str.
  destruct (cloudinary_image _ _ _) as [tag|e]; [|reflexivity].
  cbn [outcome_map]. now rewrite run_replace.
Qed.

Lemma run_cloudinaryUrl_nullish (context : value) :
  is_nullish context = true ->
  cloudinaryUrl this context options st = (Throw TypeError, with_auto_format st l o).
Proof.
  intros Hn. rewrite run_cloudinaryUrl_mark.
  assert (null_to_undefined context = VUndef) as -> by (now destruct context).
  reflexivity.
Qed.

Lemma run_cloudinaryUrl_other (context : value) :
  is_nullish context = false ->
  ToBoolean (default VUndef (own_prop st context "public_id")) = false ->
  typeof context <> "string" ->
  cloudinaryUrl this context options st = (Return VUndef, with_auto_format st l o).
Proof.
  intros Hn Hp Hty. rewrite run_cloudinaryUrl_mark.
  assert (null_to_undefined context = context) as -> by (now destruct context).
  rewrite run_bind, run_get_prop_default by done.
  rewrite own_prop_after by discriminate. rewrite Hp. cbv beta iota.
  rewrite strict_eq_strings. now destruct (String.eqb_spec (typeof context) "string").
Qed.

End Call.

(** [cloudinaryUrl] given its options, whose [hash] is the record [o]
    at [l].  First the hash is marked: unless its [format] is ['svg'] it
    gets [fetch_format = 'auto'].  Then, for a context with a non-empty
    string [public_id], the URL builder is asked for
    [public_id + '.' + format] (a missing format reads ['undefined']) with
    the marked hash, and the first [http] of its answer becomes [https];
    for a string context, the empty string included, the same is done with
    the image-tag builder and the string; for [null] and [undefined] the
    call throws a TypeError, after the marking; and for any other context
    without a truthy [public_id] it returns [undefined].  A failure of a
    builder is passed on. *)
Theorem cloudinaryUrl_spec (this context options : value) (l : loc) (o : object)
    (st : state) :
  ToBoolean options = true ->
  own_prop st options "hash" = Some (VRef l) ->
  heap st !! l = Some o ->
  (forall pid : string,
     own_prop st context "public_id" = Some (VStr pid) ->
     pid <> "" ->
     cloudinaryUrl this context options st =
     (outcome_map (fun url => VStr (Str.replace "http" "https" url))
        (cloudinary_url (heap (with_auto_format st l o))
           (VStr (pid ++ "." ++ ToString (heap (with_auto_format st l o))
                                  (default VUndef (own_prop st context "format"))))
           (auto_format o)), with_auto_format st l o)) /\
  (forall s : string,
     context = VStr s ->
     cloudinaryUrl this context options st =
     (outcome_map (fun tag => VStr (Str.replace "http" "https" tag))
        (cloudinary_image (heap (with_auto_format st l o)) (VStr s) (auto_format o)),
      with_auto_format st l o)) /\
  (is_nullish context = true ->
   cloudinaryUrl this context options st = (Throw TypeError, with_auto_format st l o)) /\
  (is_nullish context = false ->
   ToBoolean (default VUndef (own_prop st context "public_id")) = false ->
   typeof context <> "string" ->
   cloudinaryUrl this context options st = (Return VUndef, with_auto_format st l o)).
Proof.
  intros Ht Hhash Ho.
  split; [|split; [|split]].
  - intros pid. now apply run_cloudinaryUrl_descriptor.
  - intros s. now apply run_cloudinaryUrl_string.
  - now apply run_cloudinaryUrl_nullish.
  - now apply run_cloudinaryUrl_other.
Qed.

(** The replacement [.replace('http', 'https')] does not look at what
    follows [http].  When the URL builder answers with an [http://] URL
    the helper returns it with [https://]; when the builder answers with a
    URL that is already [https://], the helper returns it with the scheme
    [httpss://]. *)
Theorem cloudinaryUrl_doubles_https (this context options : value) (l : loc) (o : object)
    (pid : string) (st : state) :
  ToBoolean options = true ->
  own_prop st options "hash" = Some (VRef l) ->
  heap st !! l = Some o ->
  own_prop st context "public_id" = Some (VStr pid) ->
  pid <> "" ->
  (forall r : string,
     cloudinary_url (heap (with_auto_format st l o))
       (VStr (pid ++ "." ++ ToString (heap (with_auto_format st l o))
                              (default VUndef (own_prop st context "format"))))
       (auto_format o) = Return ("http://" ++ r) ->
     cloudinaryUrl this context options st
     = (Return (VStr ("https://" ++ r)), with_auto_format st l o)) /\
  (forall r : string,
     cloudinary_url (heap (with_auto_format st l o))
       (VStr (pid ++ "." ++ ToString (heap (with_auto_format st l o))
                              (default VUndef (own_prop st context "format"))))
       (auto_format o) = Return ("https://" ++ r) ->
     cloudinaryUrl this context options st
     = (Return (VStr ("httpss://" ++ r)), with_auto_format st l o)).
Proof.
  intros Ht Hhash Ho Hpid Hne.
  split; intros r Hr;
    rewrite (run_cloudinaryUrl_descriptor _ _ _ _ _ Ht Hhash Ho _ _ Hpid Hne), Hr;
    reflexivity.
Qed.

(** [cloudinaryImg] calls [_helpers.cloudinaryUrl(context, options)], so
    the scope the callee sees is the registry.  With options given the two
    helpers do the same.  With the options record as only argument,
    [cloudinaryImg] is [cloudinaryUrl] applied to the registry as context,
    not to the scope: as the registry has no [public_id], the call marks
    the hash and returns [undefined], whatever the scope holds. *)
Theorem cloudinaryImg_spec (this : value) (st : state) :
  (forall context options : value,
     ToBoolean options = true ->
     cloudinaryImg this context options st = cloudinaryUrl this context options st) /\
  (forall opts hash : value,
     own_prop st opts "hasOwnProperty" = None ->
     own_prop st opts "hash" = Some hash ->
     cloudinaryImg this opts VUndef st = cloudinaryUrl this (VRef (registry st)) opts st) /\
  (forall (opts : value) (l : loc) (o : object),
     own_prop st opts "hasOwnProperty" = None ->
     own_prop st opts "hash" = Some (VRef l) ->
     heap st !! l = Some o ->
     own_prop st (VRef (registry st)) "public_id" = None ->
     cloudinaryImg this opts VUndef st = (Return VUndef, with_auto_format st l o)).
Proof.
  assert (forall context options,
            cloudinaryImg this context options st
            = cloudinaryUrl (VRef (registry st)) context options st) as Himg by reflexivity.
  split; [|split].
  - intros context options Ht. rewrite Himg. now apply run_cloudinaryUrl_scope.
  - intros opts hash Hown Hhash.
    now rewrite Himg, (run_cloudinaryUrl_options_only _ this _ _ _ Hown Hhash).
  - intros opts l o Hown Hhash Ho Hreg.
    rewrite Himg, (run_cloudinaryUrl_options_only _ this _ _ _ Hown Hhash).
    change (this_object (VRef (registry st))) with (VRef (registry st)).
    apply run_cloudinaryUrl_other; eauto using own_hash_truthy.
    now rewrite Hreg.
Qed.

End Cloudinary.

(** ** The text helpers off their intended inputs *)

Section Text.

Context {C : Collaborators}.

(** The helpers that call a string method on their argument have no
    guard.  Given [undefined], [null], a boolean or a number, [trim],
    [cleanString], [emailFormat], [upperCase], [lowerCase] and [limit]
    throw a TypeError; given [undefined] or [null] as the descriptor, so
    do [fileType] and [img]; and [secureUrl], which lets [undefined]
    through, throws on [null].  In each case nothing is changed and
    further arguments make no difference. *)
Theorem text_helpers_throw (this v : value) (rest : list value) (st : state) :
  (not_text v = true ->
   forall hp : helper,
     hp ∈ [Htrim; HcleanString; HemailFormat; HupperCase; HlowerCase; Hlimit] ->
     invoke hp this (v :: rest) st = (Throw TypeError, st)) /\
  (is_nullish v = true ->
   forall hp : helper,
     hp ∈ [HfileType; Himg] -> invoke hp this (v :: rest) st = (Throw TypeError, st)) /\
  invoke HsecureUrl this (VNull :: rest) st = (Throw TypeError, st).
Proof.
  split; [|split].
  - intros Hv hp Hhp.
    repeat (apply elem_of_cons in Hhp as [->|Hhp]);
      try (now apply elem_of_nil in Hhp);
      destruct v; try discriminate; reflexivity.
  - intros Hv hp Hhp.
    repeat (apply elem_of_cons in Hhp as [->|Hhp]);
      try (now apply elem_of_nil in Hhp);
      destruct v; try discriminate; reflexivity.
  - reflexivity.
Qed.


Lemma run_upperCase (s : string) (st : state) :
  upperCase (VStr s) st =
  (Return (VStr match s with
                | EmptyString => EmptyString
                | String c s' => String (Str.upper_char c) s'
                end), st).
Proof. unfold upperCase. run. now destruct s. Qed.



(** [pluralize] hands back what the pluralizer answers, and
    [trimPluralize] is [trim] of that answer: a failure of the pluralizer
    is passed on by both, and otherwise the result of [trimPluralize] has
    the length of the plural, no space and no upper-case letter. *)
Theorem trimPluralize_spec (str : value) (st : state) :
  pluralize str st = (outcome_map VStr (pluralize_plural (heap st) str), st) /\
  trimPluralize str st =
  match pluralize_plural (heap st) str with
  | Return plural => trim (VStr plural) st
  | Throw e => (Throw e, st)
  end /\
  (forall plural : string,
     pluralize_plural (heap st) str = Return plural ->
     exists t : string,
       trimPluralize str st = (Return (VStr t), st) /\
       String.length t = String.length plural /\
       Str.mem Str.space t = false /\
       Str.forallb (fun c => negb (Str.is_upper c)) t = true).
Proof.
  assert (pluralize str st = (outcome_map VStr (pluralize_plural (heap st) str), st)) as Hp.
  { unfold pluralize. rewrite run_bind. change (get_state st) with (Return st, st).
    cbv beta iota. apply run_lift_str. }
  assert (trimPluralize str st =
          match pluralize_plural (heap st) str with
          | Return plural => trim (VStr plural) st
          | Throw e => (Throw e, st)
          end) as Ht.
  { unfold trimPluralize. rewrite run_bind, Hp. now destruct (pluralize_plural _ _). }
  split; [exact Hp|]. split; [exact Ht|].
  intros plural Hplural. rewrite Ht, Hplural, run_trim. eexists. split; [reflexivity|].
  split; [apply StrFacts.length_map|]. split.
  - apply mem_map_absent. intros c. now destruct c as [[] [] [] [] [] [] [] []].
  - apply StrFacts.forallb_map. intros c. now destruct c as [[] [] [] [] [] [] [] []].
Qed.

(** [jsonStr] returns the text [JSON.stringify] gives, and [undefined]
    when it gives none; [jsonPrint] puts that text between the opening
    [div] and [</div>], without escaping it, and where there is none the
    word [undefined] stands in its place.  A failure of [JSON.stringify]
    is passed on by both. *)
Theorem jsonPrint_spec (obj : value) (st : state) :
  jsonStr obj st =
  match JSON_stringify (heap st) obj with
  | Return (Some json) => (Return (VStr json), st)
  | Return None => (Return VUndef, st)
  | Throw e => (Throw e, st)
  end /\
  jsonPrint obj st =
  match JSON_stringify (heap st) obj with
  | Return (Some json) => (Return (VStr (debug_open ++ json ++ "</div>")), st)
  | Return None => (Return (VStr (debug_open ++ "undefined" ++ "</div>")), st)
  | Throw e => (Throw e, st)
  end.
Proof.
  unfold jsonStr, jsonPrint. rewrite !run_bind.
  change (get_state st) with (Return st, st). cbv beta iota.
  destruct (JSON_stringify (heap st) obj) as [[json|]|e]; cbn [stringified];
    rewrite ?run_bind, ?run_ret; cbv beta iota; split; reflexivity.
Qed.

End Text.

(** ** The answers of [fileType] *)

Section Icons.

Context {C : Collaborators}.

Lemma run_fileType_string (file : value) (s : string) (st : state) :
  get_prop file "filetype" st = (Return (VStr s), st) ->
  fileType file st =
  (Return (VStr
     (if Str.contains "audio/" s then "audio-o"
      else if Str.contains "video/" s then "video-o"
      else if Str.contains "image/" s then "image-o"
      else match List.find (fun e => String.eqb (fst e) (Str.replace "application/" "" s))
                           cssTypesApp with
           | Some (_, icon) => icon ++ "-o"
           | None => "file"
           end)), st).
Proof.
  intros H. unfold fileType. rewrite (run_bind_return _ _ _ _ _ H).
  cbn [strict_eq]. rewrite bool_decide_eq_false_2 by discriminate.
  rewrite run_bind.
  run. rewrite found_indexOf. destruct (Str.contains "audio/" s); [reflexivity|].
  run. rewrite found_indexOf. destruct (Str.contains "video/" s); [reflexivity|].
  run. rewrite found_indexOf. destruct (Str.contains "image/" s); [reflexivity|].
  rewrite (run_bind_return _ _ _ _ _ H). run.
  rewrite lookup_icon_find.
  destruct (List.find _ cssTypesApp) as [[k icon]|]; reflexivity.
Qed.

(** Whatever string the [filetype] of a descriptor is, [fileType] returns
    one of nine tokens, ['file'] or an icon name followed by ['-o'], and
    changes nothing.  A [filetype] that is [null], a boolean or a number
    makes it throw a TypeError: only [undefined] is tested for. *)
Theorem fileType_tokens (file ft : value) (st : state) :
  get_prop file "filetype" st = (Return ft, st) ->
  (forall s : string, ft = VStr s ->
     exists t : string, fileType file st = (Return (VStr t), st) /\ t ∈ icon_classes) /\
  (ft <> VUndef -> not_text ft = true -> fileType file st = (Throw TypeError, st)).
Proof.
  intros H. split.
  - intros s ->. rewrite (run_fileType_string _ _ _ H). eexists. split; [reflexivity|].
    unfold icon_classes.
    destruct (Str.contains "audio/" s); [repeat constructor|].
    destruct (Str.contains "video/" s); [repeat constructor|].
    destruct (Str.contains "image/" s); [repeat constructor|].
    destruct (List.find _ cssTypesApp) as [[k icon]|] eqn:E; [|repeat constructor].
    apply find_some in E as [Hin _]. unfold cssTypesApp in Hin. cbn [In] in Hin.
    repeat destruct Hin as [[= <- <-]|Hin]; try (repeat constructor); destruct Hin.
  - intros Hu Ht. unfold fileType. rewrite (run_bind_return _ _ _ _ _ H).
    destruct ft as [| |b|n| | | |]; try discriminate; try congruence; reflexivity.
Qed.

End Icons.

(** ** The comparison made by [ifeq] and [ifnoteq] *)

Section Equality.

Context {C : Collaborators}.

Lemma num_eqb_sym (a b : number) : Js.num_eqb a b = Js.num_eqb b a.
Proof. destruct a, b; try reflexivity. apply Z.eqb_sym. Qed.

Lemma loose_eq_prim_sym (a b : value) : loose_eq_prim a b = loose_eq_prim b a.
Proof.
  destruct a, b; cbn [loose_eq_prim]; try apply num_eqb_sym. apply String.eqb_sym.
Qed.

(** [==] does not depend on the order of its operands. *)
Lemma loose_eq_sym (h : gmap loc object) (a b : value) : loose_eq h a b = loose_eq h b a.
Proof.
  unfold loose_eq.
  rewrite (andb_comm (is_object b)), (orb_comm (is_nullish b)), (andb_comm (is_nullish b)).
  rewrite (loose_eq_prim_sym (ToPrimitive h b)).
  now rewrite (bool_decide_ext (b = a) (a = b)) by (split; congruence).
Qed.

(** Every value but [NaN] equals itself. *)
Lemma loose_eq_refl (h : gmap loc object) (a : value) :
  a <> VNum NaN -> loose_eq h a a = true.
Proof.
  intros Ha. unfold loose_eq.
  destruct a as [| |b|[|z]|s| | |]; try reflexivity; try congruence; cbn.
  - now destruct b.
  - apply Z.eqb_refl.
  - apply String.eqb_refl.
  - now apply bool_decide_eq_true.
  - now apply bool_decide_eq_true.
Qed.

Lemma run_ifeq (this a b options : value) (st : state) :
  ifeq this a b options st =
  call_method options (if loose_eq (heap st) a b then "fn" else "inverse")
    [AVal (this_object this)] not_a_function st.
Proof.
  unfold ifeq. rewrite run_bind. change (get_state st) with (Return st, st).
  cbv beta iota. now destruct (loose_eq _ _ _).
Qed.

Lemma run_ifnoteq (this a b options : value) (st : state) :
  ifnoteq this a b options st =
  call_method options (if loose_eq (heap st) a b then "inverse" else "fn")
    [AVal (this_object this)] not_a_function st.
Proof.
  unfold ifnoteq. rewrite run_bind. change (get_state st) with (Return st, st).
  cbv beta iota. now destruct (loose_eq _ _ _).
Qed.

(** The order of the two compared values makes no difference to [ifeq]
    and [ifnoteq].  A value compared with itself takes the [fn] branch of
    [ifeq] and the [inverse] branch of [ifnoteq], except [NaN], which is
    not equal to itself: [ifeq(NaN, NaN)] takes [inverse]. *)
Theorem ifeq_symmetric (this a b options : value) (st : state) :
  ifeq this a b options st = ifeq this b a options st /\
  ifnoteq this a b options st = ifnoteq this b a options st /\
  (a <> VNum NaN ->
   ifeq this a a options st
   = call_method options "fn" [AVal (this_object this)] not_a_function st /\
   ifnoteq this a a options st
   = call_method options "inverse" [AVal (this_object this)] not_a_function st) /\
  ifeq this (VNum NaN) (VNum NaN) options st
  = call_method options "inverse" [AVal (this_object this)] not_a_function st.
Proof.
  rewrite !run_ifeq, !run_ifnoteq, (loose_eq_sym _ b a).
  split; [reflexivity|]. split; [reflexivity|]. split; [|reflexivity].
  intros Ha. now rewrite loose_eq_refl.
Qed.


End Equality.

(** ** Concrete calls

    The helpers run on the sample host of [Host]: the registry object is
    at location 1 and is passed as the scope. *)

Section Concrete.

Local Existing Instance Host.sample.

Import Host.

Local Open Scope positive_scope.

Lemma draw_in_range : randomNum_in_range.
Proof.
  intros min max w H. unfold randomNum, sample, draw. cbn [fst].
  pose proof (Z.mod_pos_bound (Z.of_nat w) (max - min + 1)). lia.
Qed.


(** C2 fails as stated: the top-level type of [x-audio/basic] is not
    [audio], nor is it an [application/] type, yet [fileType] answers
    ['audio-o'] where the claim has ['file']; and the bare string [pdf],
    which has no [application/] part, gets ['pdf-o']. *)
Lemma fileType_matches_anywhere :
  String.prefix "audio/" "x-audio/basic" = false /\
  fileType (VRef 2) (descriptor {[ "filetype" := VStr "x-audio/basic" ]})
  = (Return (VStr "audio-o"), descriptor {[ "filetype" := VStr "x-audio/basic" ]}) /\
  fileType (VRef 2) (descriptor {[ "filetype" := VStr "pdf" ]})
  = (Return (VStr "pdf-o"), descriptor {[ "filetype" := VStr "pdf" ]}).
Proof. repeat split; vm_compute; reflexivity. Qed.

Lemma fileType_spec_witness :
  get_prop (VRef 2) "filetype" (descriptor {[ "filetype" := VStr "application/pdf" ]})
  = (Return (VStr "application/pdf"), descriptor {[ "filetype" := VStr "application/pdf" ]}) /\
  fileType (VRef 2) (descriptor {[ "filetype" := VStr "application/pdf" ]})
  = (Return (VStr "pdf-o"), descriptor {[ "filetype" := VStr "application/pdf" ]}).
Proof.
  split; [reflexivity|].
  exact (proj2 (fileType_spec (VRef 2)
                  (descriptor {[ "filetype" := VStr "application/pdf" ]})
                  (VStr "application/pdf") eq_refl)
           "application/pdf" eq_refl).
Defined.

(** C3 fails as stated: with a [path] option that is present and empty the
    identifier is not [site/.js]; the URL is the one of
    [site/production.js] with a drawn number in its version segment. *)
Lemma cdnAsset_empty_path :
  own_prop (options_call {[ "product" := VStr "site"; "path" := VStr ""; "type" := VStr "js" ]})
    (VRef 3) "path" = Some (VStr "") /\
  (cdnAsset (VRef 1) (VRef 2) VUndef
     (options_call {[ "product" := VStr "site"; "path" := VStr ""; "type" := VStr "js" ]})).1
  = Return (VStr "https://res.cloudinary.com/demo/raw/upload/v1000/site/production.js").
Proof. split; vm_compute; reflexivity. Qed.

Lemma cdnAsset_spec_witness :
  randomNum_in_range /\
  own_prop (options_call {[ "product" := VStr "site"; "type" := VStr "js" ]})
    (VRef 2) "hash" = Some (VRef 3) /\
  cdnAsset (VRef 1) (VRef 2) VUndef
    (options_call {[ "product" := VStr "site"; "type" := VStr "js" ]})
  = (Return (VStr "https://res.cloudinary.com/demo/raw/upload/v1000/site/production.js"),
     set_world 1 (options_call {[ "product" := VStr "site"; "type" := VStr "js" ]})).
Proof.
  split; [exact draw_in_range|]. split; [reflexivity|].
  exact (proj1 (proj2
    (cdnAsset_spec (VRef 1) VUndef (VRef 2) (VRef 3) "site" "js" VUndef VUndef VUndef
       (options_call {[ "product" := VStr "site"; "type" := VStr "js" ]})
       draw_in_range eq_refl eq_refl eq_refl eq_refl eq_refl eq_refl eq_refl eq_refl))).
Defined.

(** C4 fails as stated: a string that begins with [https://] and holds
    [http://] further on is not returned unchanged. *)
Lemma secureUrl_rewrites_https :
  String.prefix "https://" "https://a.example/?next=http://b.example" = true /\
  secureUrl (VStr "https://a.example/?next=http://b.example") empty
  = (Return (VStr "https://a.example/?next=https://b.example"), empty).
Proof. split; vm_compute; reflexivity. Qed.


(** C8 fails on the code: for a descriptor without [filename], [img]
    returns [undefined], not an empty SafeString, and [hbs.string] holds
    the empty text the constructor was called on. *)
Lemma img_without_filename :
  (img (VRef 2) (descriptor {[ "path" := VStr "./public/images" ]})).1 = Return VUndef /\
  hbs_own (img (VRef 2) (descriptor {[ "path" := VStr "./public/images" ]})).2 !! "string"
  = Some (VStr "").
Proof. split; vm_compute; reflexivity. Qed.

Lemma run_img_with_filename_witness :
  get_prop (VRef 2) "filename"
    (descriptor {[ "path" := VStr "./public/images"; "filename" := VStr "a&b.png" ]})
  = (Return (VStr "a&b.png"),
     descriptor {[ "path" := VStr "./public/images"; "filename" := VStr "a&b.png" ]}) /\
  own_prop
    (img (VRef 2)
       (descriptor {[ "path" := VStr "./public/images"; "filename" := VStr "a&b.png" ]})).2
    (VRef 3) "string"
  = Some (VStr "<img src='images/a&amp;b.png' alt='a&amp;b.png'>").
Proof.
  split; [reflexivity|].
  rewrite (run_img_with_filename (VRef 2) (VStr "a&b.png") (VStr "./public/images")
             (descriptor {[ "path" := VStr "./public/images"; "filename" := VStr "a&b.png" ]})
             ltac:(discriminate) eq_refl eq_refl eq_refl).
  vm_compute. reflexivity.
Defined.

Lemma emailFormat_first_at_witness :
  Str.find "@" ("ana" ++ "@" ++ "example.org") 0 = Some (String.length "ana") /\
  emailFormat (VStr "ana@example.org") empty = (Return (VStr "ana at example.org"), empty).
Proof.
  split; [reflexivity|].
  exact (emailFormat_first_at "ana" "example.org" empty eq_refl).
Defined.

Lemma date_spec_witness :
  get_prop (VRef 3) "format" (options_call {[ "format" := VStr "YYYY" ]})
  = (Return (VStr "YYYY"), options_call {[ "format" := VStr "YYYY" ]}) /\
  date (VRef 1) VNull (VRef 2) (options_call {[ "format" := VStr "YYYY" ]})
  = (Return (VStr "YYYY"), options_call {[ "format" := VStr "YYYY" ]}).
Proof.
  split; [reflexivity|].
  exact (date_spec (VRef 1) VNull (VRef 2) (VRef 3) (VStr "YYYY") VUndef
           (options_call {[ "format" := VStr "YYYY" ]}) eq_refl eq_refl eq_refl eq_refl).
Defined.

Lemma removePara_spec_witness :
  Str.mem "<" "Intro " = false /\
  removePara (VStr "Intro <p class='lead'>Hello</p><p>more</p>") empty
  = (Return (VStr "Hello"), empty).
Proof.
  split; [reflexivity|].
  exact (removePara_spec "Intro " " class='lead'" "Hello" "<p>more</p>" empty
           eq_refl eq_refl eq_refl eq_refl).
Defined.

Lemma removePara_letter_s_witness :
  Str.mem "<" "Hello" = false /\
  removePara (VStr "<ssp>Hello<s/ssp>") empty = (Return (VStr "Hello"), empty) /\
  removePara (VStr "< p>Hello</p>") empty = (Return VUndef, empty) /\
  removePara (VStr "<p>Hello</ p>") empty = (Return VUndef, empty).
Proof.
  split; [reflexivity|].
  exact (removePara_letter_s "Hello" "" empty eq_refl eq_refl).
Defined.

(** A scope with a [publishedDate] at 2, a helper-options record at 3 and
    its [hash] at 4. *)
Local Abbreviation post_call :=
  (store [ {[ "publishedDate" := VStr "2020-01-01"; "public_id" := VStr "sample" ]};
           {[ "hash" := VRef 4 ]};
           {[ "format" := VStr "YYYY"; "secure" := VBool true ]} ]).


Lemma without_options_witness :
  ToBoolean VUndef = false /\
  date (VRef 1) (VStr "2020-01-01") VUndef empty = (Throw TypeError, empty) /\
  cloudinaryUrl (VRef 1) (VStr "sample") VUndef empty = (Throw TypeError, empty) /\
  cdnAsset (VRef 1) (VStr "site") VUndef empty = (Return VUndef, empty) /\
  cdnAsset (VRef 1) VUndef VUndef empty = (Throw TypeError, empty).
Proof.
  split; [reflexivity|].
  pose proof (proj2 (without_options (VRef 1) (VStr "2020-01-01") VUndef empty eq_refl)
                eq_refl eq_refl eq_refl) as (Hdate & _ & _).
  pose proof (proj2 (without_options (VRef 1) (VStr "sample") VUndef empty eq_refl)
                eq_refl eq_refl eq_refl) as (_ & Hurl & _).
  pose proof (proj2 (without_options (VRef 1) (VStr "site") VUndef empty eq_refl)
                eq_refl eq_refl eq_refl) as (_ & _ & Hcdn).
  pose proof (proj1 (without_options (VRef 1) VUndef VUndef empty eq_refl) eq_refl)
    as (_ & _ & Hnone).
  repeat split; assumption.
Defined.

Lemma cloudinaryUrl_spec_witness :
  own_prop image_call (VRef 3) "hash" = Some (VRef 4) /\
  (cloudinaryUrl (VRef 1) (VRef 2) (VRef 3) image_call).1
  = Return (VStr "https://res.cloudinary.com/demo/image/upload/v1/sample.png") /\
  (cloudinaryUrl (VRef 1) (VStr "sample") (VRef 3) image_call).1
  = Return (VStr "<img src='https://res.cloudinary.com/demo/image/upload/sample' />") /\
  (cloudinaryUrl (VRef 1) VNull (VRef 3) image_call).1 = Throw TypeError /\
  (cloudinaryUrl (VRef 1) (VNum (Int 7)) (VRef 3) image_call).1 = Return VUndef.
Proof.
  split; [reflexivity|].
  pose proof (fun context =>
                cloudinaryUrl_spec (VRef 1) context (VRef 3) 4
                  (Obj Plain {[ "width" := VNum (Int 640) ]}) image_call
                  eq_refl eq_refl eq_refl) as H.
  rewrite (proj1 (H (VRef 2)) "sample" eq_refl ltac:(discriminate)).
  rewrite (proj1 (proj2 (H (VStr "sample"))) "sample" eq_refl).
  rewrite (proj1 (proj2 (proj2 (H VNull))) eq_refl).
  rewrite (proj2 (proj2 (proj2 (H (VNum (Int 7))))) eq_refl eq_refl ltac:(discriminate)).
  repeat split; vm_compute; reflexivity.
Defined.

Lemma cloudinaryUrl_doubles_https_witness :
  own_prop post_call (VRef 2) "public_id" = Some (VStr "sample") /\
  (cloudinaryUrl (VRef 1) (VRef 2) (VRef 3) post_call).1
  = Return (VStr "httpss://res.cloudinary.com/demo/image/upload/v1/sample.undefined").
Proof.
  split; [reflexivity|].
  assert (own_prop post_call (VRef 3) "hash" = Some (VRef 4)) as Hhash by reflexivity.
  assert (heap post_call !! 4
          = Some (Obj Plain {[ "format" := VStr "YYYY"; "secure" := VBool true ]})) as Ho
    by (vm_compute; reflexivity).
  assert (own_prop post_call (VRef 2) "public_id" = Some (VStr "sample")) as Hpid
    by reflexivity.
  pose proof (proj2 (cloudinaryUrl_doubles_https (VRef 1) (VRef 2) (VRef 3) 4 _
                       "sample" post_call eq_refl Hhash Ho Hpid ltac:(discriminate))
                "res.cloudinary.com/demo/image/upload/v1/sample.undefined") as H.
  rewrite H; [reflexivity|]. vm_compute. reflexivity.
Defined.

(** Called with the options only, on a scope that is an image,
    [cloudinaryUrl] builds the URL of the scope and [cloudinaryImg]
    returns [undefined]. *)
Lemma cloudinaryImg_spec_witness :
  own_prop post_call (VRef 1) "public_id" = None /\
  (cloudinaryUrl (VRef 2) (VRef 3) VUndef post_call).1
  = Return (VStr "httpss://res.cloudinary.com/demo/image/upload/v1/sample.undefined") /\
  (cloudinaryImg (VRef 2) (VRef 3) VUndef post_call).1 = Return VUndef.
Proof.
  split; [reflexivity|]. split; [vm_compute; reflexivity|].
  assert (heap post_call !! 4
          = Some (Obj Plain {[ "format" := VStr "YYYY"; "secure" := VBool true ]})) as Ho
    by (vm_compute; reflexivity).
  assert (own_prop post_call (VRef 3) "hasOwnProperty" = None) as Hown by reflexivity.
  assert (own_prop post_call (VRef 3) "hash" = Some (VRef 4)) as Hhash by reflexivity.
  assert (own_prop post_call (VRef (registry post_call)) "public_id" = None) as Hreg
    by reflexivity.
  now rewrite (proj2 (proj2 (cloudinaryImg_spec (VRef 2) post_call)) (VRef 3) 4 _
                 Hown Hhash Ho Hreg).
Defined.

Lemma fileType_tokens_witness :
  get_prop (VRef 2) "filetype" (descriptor {[ "filetype" := VStr "application/zip" ]})
  = (Return (VStr "application/zip"), descriptor {[ "filetype" := VStr "application/zip" ]}) /\
  exists t : string,
    fileType (VRef 2) (descriptor {[ "filetype" := VStr "application/zip" ]})
    = (Return (VStr t), descriptor {[ "filetype" := VStr "application/zip" ]}) /\
    t ∈ icon_classes.
Proof.
  split; [reflexivity|].
  exact (proj1 (fileType_tokens (VRef 2) (VStr "application/zip")
                  (descriptor {[ "filetype" := VStr "application/zip" ]}) eq_refl)
           "application/zip" eq_refl).
Defined.

End Concrete.
